(** * Book-Club: the schema and validation layer of [server/models.py]

    A shallow embedding of the seven SQLAlchemy models of the book-club
    server: the dynamically typed values that reach a column, the
    [@validates] hooks, the password property of [User], the column
    declarations the store enforces on INSERT and UPDATE, and the
    [serialize_rules] of every model. *)

From Stdlib Require Import ZArith Lia Ascii String.
From stdpp Require Import base numbers strings pretty list finite gmap.

Local Open Scope string_scope.
Local Open Scope Z_scope.

(** ** Python values and exceptions *)

Module Py.

(** A Python [float]: a binary fraction [m * 2^e], an infinity or a NaN.
    [3.5] is [FFinite 7 (-1)]. *)
Inductive pyfloat : Type :=
| FFinite (m e : Z)
| FInf (negative : bool)
| FNaN.

(** The values calling code can assign to a mapped attribute.  A [str] is
    a sequence of characters; a [datetime] is counted in microseconds
    since the epoch. *)
Inductive value : Type :=
| VNone
| VBool (b : bool)
| VInt (n : Z)
| VFloat (f : pyfloat)
| VStr (s : string)
| VDateTime (t : Z).

Inductive exn : Type :=
| AssertionError
| TypeError
| ValueError (msg : string)
| IntegrityError (column : string).

Inductive result (A : Type) : Type :=
| Ok (a : A)
| Raise (e : exn).
Arguments Ok {A} a.
Arguments Raise {A} e.

Definition bind {A B} (r : result A) (k : A -> result B) : result B :=
  match r with
  | Ok a => k a
  | Raise e => Raise e
  end.

Definition is_ok {A} (r : result A) : bool :=
  match r with Ok _ => true | Raise _ => false end.

(** [n <= f] and [f <= n] for an int [n] and a float [f]: Python compares
    the two exactly, without rounding [n]. *)
Definition int_le_float (n : Z) (f : pyfloat) : bool :=
  match f with
  | FFinite m e => if 0 <=? e then n <=? m * 2 ^ e else n * 2 ^ (- e) <=? m
  | FInf negative => negb negative
  | FNaN => false
  end.

Definition float_le_int (f : pyfloat) (n : Z) : bool :=
  match f with
  | FFinite m e => if 0 <=? e then m * 2 ^ e <=? n else m <=? n * 2 ^ (- e)
  | FInf negative => negative
  | FNaN => false
  end.

(** [n <= v] with an int literal on the left.  [bool] is a subclass of
    [int]; [None], [str] and [datetime] do not order against an int. *)
Definition int_le (n : Z) (v : value) : result bool :=
  match v with
  | VInt k => Ok (n <=? k)
  | VBool b => Ok (n <=? Z.b2z b)
  | VFloat f => Ok (int_le_float n f)
  | VNone | VStr _ | VDateTime _ => Raise TypeError
  end.

(** [v <= n] with an int literal on the right. *)
Definition le_int (v : value) (n : Z) : result bool :=
  match v with
  | VInt k => Ok (k <=? n)
  | VBool b => Ok (Z.b2z b <=? n)
  | VFloat f => Ok (float_le_int f n)
  | VNone | VStr _ | VDateTime _ => Raise TypeError
  end.

(** The chained comparison [lo <= v <= hi] is [lo <= v and v <= hi]:
    the second test is skipped when the first is false. *)
Definition chained_le (lo : Z) (v : value) (hi : Z) : result bool :=
  bind (int_le lo v) (fun b => if b then le_int v hi else Ok false).

Fixpoint has_char (c : ascii) (s : string) : bool :=
  match s with
  | EmptyString => false
  | String d rest => if Ascii.eqb c d then true else has_char c rest
  end.

(** [c in v] for a one-character string [c]: a substring test on a [str],
    a TypeError on a value that is not a container. *)
Definition char_in (c : ascii) (v : value) : result bool :=
  match v with
  | VStr s => Ok (has_char c s)
  | VNone | VBool _ | VInt _ | VFloat _ | VDateTime _ => Raise TypeError
  end.

(** [len(v)]. *)
Definition len (v : value) : result Z :=
  match v with
  | VStr s => Ok (Z.of_nat (String.length s))
  | VNone | VBool _ | VInt _ | VFloat _ | VDateTime _ => Raise TypeError
  end.

Definition is_none (v : value) : bool :=
  match v with VNone => true | _ => false end.

(** [assert b; return v]. *)
Definition assert_then {A} (b : bool) (a : A) : result A :=
  if b then Ok a else Raise AssertionError.

(** [v is not None and len(v) > 0]: [len] is not called on [None]. *)
Definition not_none_and_nonempty (v : value) : result bool :=
  if is_none v then Ok false else bind (len v) (fun n => Ok (0 <? n)).

(** A [str]. *)
Definition is_str_value (v : value) : bool :=
  match v with VStr _ => true | _ => false end.

(** An integer in the Python sense of the column type: an [int] that is
    not a [bool]. *)
Definition is_int (v : value) : bool :=
  match v with VInt _ => true | _ => false end.

(** [str(v)], which is what a replacement field of an f-string shows of
    [v]: an [int] in decimal, a [str] as it is.  The text of a [float]
    and of a [datetime] is not followed. *)
Definition str (v : value) : option string :=
  match v with
  | VNone => Some "None"
  | VBool true => Some "True"
  | VBool false => Some "False"
  | VInt n => Some (pretty n)
  | VStr s => Some s
  | VFloat _ | VDateTime _ => None
  end.

(** An f-string: literal text and replacement fields, left to right. *)
Inductive fpart : Type :=
| Lit (s : string)
| Field (v : value).

Fixpoint fstring (parts : list fpart) : option string :=
  match parts with
  | [] => Some ""
  | Lit s :: rest =>
      match fstring rest with
      | Some r => Some (s ++ r)
      | None => None
      end
  | Field v :: rest =>
      match str v, fstring rest with
      | Some a, Some r => Some (a ++ r)
      | _, _ => None
      end
  end.

Definition value_eq_dec : forall a b : value, {a = b} + {a <> b}.
Proof.
  repeat decide equality.
Defined.

End Py.
Import Py.

(** ** Attribute assignment

    An instance is a record of attribute values.  A statement either
    completes or raises, and in both cases leaves an instance behind: a
    raise inside a setter leaves the instance as it was. *)

Definition stmt (S : Type) : Type := S -> result unit * S.

(** [obj.attr = v] for an attribute guarded by [@validates]: the
    validator's return value is what gets stored, and nothing is stored
    when it raises. *)
Definition validated_set {S : Type} (validator : value -> result value)
    (store : S -> value -> S) (v : value) : stmt S :=
  fun obj =>
    match validator v with
    | Ok v' => (Ok tt, store obj v')
    | Raise e => (Raise e, obj)
    end.

(** [obj.attr = v] for a plain column attribute. *)
Definition plain_set {S : Type} (store : S -> value -> S) (v : value) : stmt S :=
  fun obj => (Ok tt, store obj v).

Definition succeeds {S : Type} (c : stmt S) (obj : S) : Prop :=
  fst (c obj) = Ok tt.

Definition raises {S : Type} (c : stmt S) (obj : S) (e : exn) : Prop :=
  fst (c obj) = Raise e.

Definition after {S : Type} (c : stmt S) (obj : S) : S := snd (c obj).

(** ** Declarations: columns, relationships, models *)

Inductive coltype : Type := Integer | String_ | Text | DateTime.

(** [db.Column(type, ...)].  [default_now] and [onupdate_now] stand for
    [default=lambda: datetime.datetime.now(datetime.timezone.utc)] and
    the same lambda passed as [onupdate]. *)
Record column : Type := Column {
  col_name : string;
  col_type : coltype;
  primary_key : bool;
  unique : bool;
  nullable : bool;
  foreign_key : option (string * string);
  default_now : bool;
  onupdate_now : bool
}.

(** A column with SQLAlchemy's defaults, and the keyword arguments that
    change them.  A primary key is never nullable. *)
Definition col (name : string) (ty : coltype) : column :=
  Column name ty false false true None false false.

Definition with_primary_key (c : column) : column :=
  Column (col_name c) (col_type c) true (unique c) false (foreign_key c)
         (default_now c) (onupdate_now c).

Definition with_unique (c : column) : column :=
  Column (col_name c) (col_type c) (primary_key c) true (nullable c)
         (foreign_key c) (default_now c) (onupdate_now c).

Definition with_nullable (b : bool) (c : column) : column :=
  Column (col_name c) (col_type c) (primary_key c) (unique c) b
         (foreign_key c) (default_now c) (onupdate_now c).

Definition with_foreign_key (table key : string) (c : column) : column :=
  Column (col_name c) (col_type c) (primary_key c) (unique c) (nullable c)
         (Some (table, key)) (default_now c) (onupdate_now c).

Definition with_default_now (c : column) : column :=
  Column (col_name c) (col_type c) (primary_key c) (unique c) (nullable c)
         (foreign_key c) true (onupdate_now c).

Definition with_onupdate_now (c : column) : column :=
  Column (col_name c) (col_type c) (primary_key c) (unique c) (nullable c)
         (foreign_key c) (default_now c) true.

(** [relationship(target, back_populates=..., uselist=...)]; [uselist] is
    [None] where the declaration leaves it to the direction of the
    foreign key. *)
Record relationship : Type := Relationship {
  rel_name : string;
  rel_target : string;
  back_populates : string;
  uselist : option bool
}.

(** A validator as [@validates(key)] registers it: it receives the key
    and the incoming value, and returns the value to store. *)
Definition validator : Type := string -> value -> result value.

Record mapped_class : Type := MappedClass {
  class_name : string;
  tablename : string;
  columns : list column;
  relationships : list relationship;
  serialize_rules : list string;
  validators : list (string * validator)
}.

(** An instance holds its attributes by name; an attribute that was
    never assigned reads as [None]. *)
Abbreviation instance := (gmap string value).

Definition getattr (obj : instance) (key : string) : value :=
  default VNone (obj !! key).

Fixpoint assoc {A : Type} (key : string) (l : list (string * A)) : option A :=
  match l with
  | [] => None
  | (k, a) :: rest => if String.eqb key k then Some a else assoc key rest
  end.

(** [setattr(obj, key, v)] on an instance of class [m]. *)
Definition setattr (m : mapped_class) (key : string) (v : value) : stmt instance :=
  match assoc key (validators m) with
  | Some f => validated_set (f key) (fun obj a => <[key := a]> obj) v
  | None => plain_set (fun obj a => <[key := a]> obj) v
  end.

Definition is_column (m : mapped_class) (key : string) : bool :=
  existsb (fun c => String.eqb key (col_name c)) (columns m).

(** [Model(key=value, ...)]: the declarative constructor refuses a keyword
    that is not an attribute of the class and otherwise does [setattr]
    for each keyword, so that validators run; a raise leaves no instance.
    The keywords followed here are the columns. *)
Fixpoint construct_from (m : mapped_class) (kwargs : list (string * value))
    (obj : instance) : result instance :=
  match kwargs with
  | [] => Ok obj
  | (k, v) :: rest =>
      if is_column m k then
        match setattr m k v obj with
        | (Ok _, obj') => construct_from m rest obj'
        | (Raise e, _) => Raise e
        end
      else Raise TypeError
  end.

Definition construct (m : mapped_class) (kwargs : list (string * value)) : result instance :=
  construct_from m kwargs ∅.

(** ** The hashing primitive

    [flask_bcrypt.Bcrypt] is an external collaborator.  Its
    [generate_password_hash] is given the salt it draws as an argument;
    hashes are ASCII, so [.decode('utf-8')] leaves their characters as
    they are. *)
Record Bcrypt : Type := {
  generate_password_hash : string -> string -> string;
  check_password_hash : string -> string -> bool
}.

(** ** The seven models *)

Module User.

Definition validate_email (key : string) (address : value) : result value :=
  Py.bind (char_in "@"%char address) (fun b => assert_then b address).

Definition validate_username (key : string) (username : value) : result value :=
  Py.bind (not_none_and_nonempty username) (fun b => assert_then b username).

Definition cls : mapped_class :=
  MappedClass "User" "users"
    [ with_primary_key (col "id" Integer);
      with_nullable false (with_unique (col "username" String_));
      with_nullable false (with_unique (col "email" String_));
      with_nullable false (col "_password_hash" String_) ]
    [ Relationship "book_clubs_created" "BookClub" "creator" None;
      Relationship "memberships" "Membership" "user" None;
      Relationship "reviews" "Review" "user" None ]
    [ "-book_clubs_created.creator"; "-memberships.user"; "-reviews.user" ]
    [ ("email", validate_email); ("username", validate_username) ].

Definition password_error : string :=
  "Password must be at least 6 characters long".

(** The setter of the [password_hash] property; [salt] is the salt the
    primitive draws for this call. *)
Definition password_hash_setter (bcrypt : Bcrypt) (salt : string)
    (password : value) : stmt instance :=
  fun self =>
    match len password with
    | Raise e => (Raise e, self)
    | Ok n =>
        if n <? 6 then (Raise (ValueError password_error), self)
        else
          match password with
          | VStr p =>
              (Ok (), <["_password_hash" :=
                         VStr (generate_password_hash bcrypt salt p)]> self)
          | _ => (Raise TypeError, self)
          end
    end.

(** The getter of the [password_hash] property. *)
Definition password_hash (self : instance) : value :=
  getattr self "_password_hash".

Definition authenticate (bcrypt : Bcrypt) (self : instance)
    (password : value) : result bool :=
  match getattr self "_password_hash", password with
  | VStr h, VStr p => Ok (check_password_hash bcrypt h p)
  | _, _ => Raise TypeError
  end.

Definition __repr__ (self : instance) : option string :=
  fstring [Lit "<User "; Field (getattr self "id"); Lit ". ";
           Field (getattr self "username"); Lit ">"].

End User.

Module BookClub.

Definition validate_name (key : string) (name : value) : result value :=
  Py.bind (not_none_and_nonempty name) (fun b => assert_then b name).

Definition cls : mapped_class :=
  MappedClass "BookClub" "book_clubs"
    [ with_primary_key (col "id" Integer);
      with_nullable false (col "name" String_);
      with_nullable true (col "description" Text);
      with_nullable false (with_foreign_key "users" "id" (col "created_by" Integer));
      with_default_now (col "created_at" DateTime) ]
    [ Relationship "creator" "User" "book_clubs_created" None;
      Relationship "members" "Membership" "book_club" None;
      Relationship "current_reading" "CurrentReading" "book_club" (Some false);
      Relationship "reviews" "Review" "book_club" None ]
    [ "-creator.book_clubs_created"; "-members.book_club"; "-reviews.book_club" ]
    [ ("name", validate_name) ].

Definition __repr__ (self : instance) : option string :=
  fstring [Lit "<BookClub "; Field (getattr self "id"); Lit ". ";
           Field (getattr self "name"); Lit ">"].

End BookClub.

Module Book.

Definition validate_title (key : string) (title : value) : result value :=
  Py.bind (not_none_and_nonempty title) (fun b => assert_then b title).

Definition validate_author (key : string) (author : value) : result value :=
  Py.bind (not_none_and_nonempty author) (fun b => assert_then b author).

Definition cls : mapped_class :=
  MappedClass "Book" "books"
    [ with_primary_key (col "id" Integer);
      with_nullable false (col "title" String_);
      with_nullable false (col "author" String_);
      with_nullable true (col "image_url" String_);
      with_nullable false (with_foreign_key "genres" "id" (col "genre_id" Integer)) ]
    [ Relationship "genre" "Genre" "books" None;
      Relationship "current_reading" "CurrentReading" "book" None;
      Relationship "reviews" "Review" "book" None ]
    [ "-genre.books"; "-current_reading.book"; "-reviews.book" ]
    [ ("title", validate_title); ("author", validate_author) ].

Definition __repr__ (self : instance) : option string :=
  fstring [Lit "<Book "; Field (getattr self "id"); Lit ". ";
           Field (getattr self "title"); Lit ">"].

End Book.

Module Genre.

Definition validate_name (key : string) (name : value) : result value :=
  Py.bind (not_none_and_nonempty name) (fun b => assert_then b name).

Definition cls : mapped_class :=
  MappedClass "Genre" "genres"
    [ with_primary_key (col "id" Integer);
      with_unique (with_nullable false (col "name" String_)) ]
    [ Relationship "books" "Book" "genre" None ]
    [ "-books.genre" ]
    [ ("name", validate_name) ].

Definition __repr__ (self : instance) : option string :=
  fstring [Lit "<Genre "; Field (getattr self "id"); Lit ". ";
           Field (getattr self "name"); Lit ">"].

End Genre.

Module Membership.

Definition cls : mapped_class :=
  MappedClass "Membership" "memberships"
    [ with_primary_key (col "id" Integer);
      with_nullable false (with_foreign_key "users" "id" (col "user_id" Integer));
      with_nullable false (with_foreign_key "book_clubs" "id" (col "book_club_id" Integer)) ]
    [ Relationship "user" "User" "memberships" None;
      Relationship "book_club" "BookClub" "members" None ]
    [ "-user.memberships"; "-book_club.members" ]
    [].

Definition __repr__ (self : instance) : option string :=
  fstring [Lit "<Membership "; Field (getattr self "id"); Lit ". User: ";
           Field (getattr self "user_id"); Lit ", BookClub: ";
           Field (getattr self "book_club_id"); Lit ">"].

End Membership.

Module CurrentReading.

Definition cls : mapped_class :=
  MappedClass "CurrentReading" "current_readings"
    [ with_primary_key (col "id" Integer);
      with_nullable false (with_foreign_key "book_clubs" "id" (col "book_club_id" Integer));
      with_nullable false (with_foreign_key "books" "id" (col "book_id" Integer));
      with_default_now (col "started_at" DateTime) ]
    [ Relationship "book_club" "BookClub" "current_reading" None;
      Relationship "book" "Book" "current_reading" None ]
    [ "-book_club.current_reading"; "-book.current_reading" ]
    [].

Definition __repr__ (self : instance) : option string :=
  fstring [Lit "<CurrentReading "; Field (getattr self "id"); Lit ". BookClub: ";
           Field (getattr self "book_club_id"); Lit ", Book: ";
           Field (getattr self "book_id"); Lit ">"].

End CurrentReading.

Module Review.

Definition validate_rating (key : string) (rating : value) : result value :=
  Py.bind (chained_le 1 rating 5) (fun b => assert_then b rating).

Definition cls : mapped_class :=
  MappedClass "Review" "reviews"
    [ with_primary_key (col "id" Integer);
      with_nullable false (with_foreign_key "users" "id" (col "user_id" Integer));
      with_nullable false (with_foreign_key "books" "id" (col "book_id" Integer));
      with_nullable false (with_foreign_key "book_clubs" "id" (col "book_club_id" Integer));
      with_nullable false (col "content" Text);
      with_nullable false (col "rating" Integer);
      with_default_now (col "created_at" DateTime);
      with_onupdate_now (with_default_now (col "updated_at" DateTime)) ]
    [ Relationship "user" "User" "reviews" None;
      Relationship "book" "Book" "reviews" None;
      Relationship "book_club" "BookClub" "reviews" None ]
    [ "-user.reviews"; "-book.reviews"; "-book_club.reviews" ]
    [ ("rating", validate_rating) ].

Definition __repr__ (self : instance) : option string :=
  fstring [Lit "<Review "; Field (getattr self "id"); Lit ". User: ";
           Field (getattr self "user_id"); Lit ", Book: ";
           Field (getattr self "book_id"); Lit ", Rating: ";
           Field (getattr self "rating"); Lit ">"].

End Review.

(** The declarative registry: class names resolve through it. *)
Definition registry : list mapped_class :=
  [ User.cls; BookClub.cls; Book.cls; Genre.cls; Membership.cls;
    CurrentReading.cls; Review.cls ].

Definition find_class (name : string) : option mapped_class :=
  find (fun m => String.eqb name (class_name m)) registry.

(** ** The store

    A database maps a table name to its rows in insertion order.  The
    store enforces what the columns declare: NOT NULL, UNIQUE and the
    primary key, and, where the engine has it switched on, foreign keys.
    It does not look at the Python type of a value. *)

#[global] Instance value_eq_decision : EqDecision value := value_eq_dec.

Abbreviation database := (gmap string (list instance)).

Definition rows_of (d : database) (table : string) : list instance :=
  default [] (d !! table).

(** Column defaults run for the columns the instance leaves unset. *)
Definition apply_defaults (now : Z) (cols : list column) (obj : instance) : instance :=
  foldr (fun c o =>
           if default_now c && is_none (getattr o (col_name c))
           then <[col_name c := VDateTime now]> o else o)
        obj cols.

Definition int_of (v : value) : Z :=
  match v with VInt n => n | _ => 0 end.

Definition next_id (key : string) (rows : list instance) : Z :=
  1 + foldr (fun r acc => Z.max (int_of (getattr r key)) acc) 0 rows.

(** An integer primary key left unset is numbered by the store. *)
Definition assign_primary_key (cols : list column) (rows : list instance)
    (obj : instance) : instance :=
  foldr (fun c o =>
           if primary_key c && is_none (getattr o (col_name c))
           then <[col_name c := VInt (next_id (col_name c) rows)]> o else o)
        obj cols.

Fixpoint check_not_null (cols : list column) (obj : instance) : result unit :=
  match cols with
  | [] => Ok ()
  | c :: rest =>
      if negb (nullable c) && is_none (getattr obj (col_name c))
      then Raise (IntegrityError (col_name c))
      else check_not_null rest obj
  end.

Definition holds_value (key : string) (v : value) (r : instance) : bool :=
  bool_decide (getattr r key = v).

(** A UNIQUE column (or the primary key) refuses a value another row
    already holds; NULLs never collide. *)
Fixpoint check_unique (cols : list column) (others : list instance)
    (obj : instance) : result unit :=
  match cols with
  | [] => Ok ()
  | c :: rest =>
      if (unique c || primary_key c)
         && negb (is_none (getattr obj (col_name c)))
         && existsb (holds_value (col_name c) (getattr obj (col_name c))) others
      then Raise (IntegrityError (col_name c))
      else check_unique rest others obj
  end.

Fixpoint check_foreign_keys (d : database) (cols : list column)
    (obj : instance) : result unit :=
  match cols with
  | [] => Ok ()
  | c :: rest =>
      match foreign_key c with
      | Some (table, key) =>
          if negb (is_none (getattr obj (col_name c)))
             && negb (existsb (holds_value key (getattr obj (col_name c)))
                              (rows_of d table))
          then Raise (IntegrityError (col_name c))
          else check_foreign_keys d rest obj
      | None => check_foreign_keys d rest obj
      end
  end.

Definition check_constraints (enforce_fk : bool) (d : database)
    (m : mapped_class) (others : list instance) (obj : instance) : result unit :=
  Py.bind (check_not_null (columns m) obj) (fun _ =>
  Py.bind (check_unique (columns m) others obj) (fun _ =>
  if enforce_fk then check_foreign_keys d (columns m) obj else Ok ())).

(** [session.add(obj); session.commit()] at time [now]: the row as it is
    written, or the integrity error, and the database afterwards. *)
Definition insert (enforce_fk : bool) (now : Z) (m : mapped_class)
    (obj : instance) (d : database) : result instance * database :=
  let rows := rows_of d (tablename m) in
  let row := assign_primary_key (columns m) rows
               (apply_defaults now (columns m) obj) in
  match check_constraints enforce_fk d m rows row with
  | Ok _ => (Ok row, <[tablename m := (rows ++ [row])%list]> d)
  | Raise e => (Raise e, d)
  end.

(** [Model(key=value, ...)] followed by [add] and [commit]. *)
Definition create (enforce_fk : bool) (now : Z) (m : mapped_class)
    (kwargs : list (string * value)) (d : database) : result instance * database :=
  match construct m kwargs with
  | Ok obj => insert enforce_fk now m obj d
  | Raise e => (Raise e, d)
  end.

(** An UPDATE of one row: the SET clause, then [onupdate] for the
    columns the SET clause does not name. *)
Definition apply_set (set_clause : list (string * value)) (row : instance) : instance :=
  foldl (fun o kv => <[kv.1 := kv.2]> o) row set_clause.

Definition named_in (set_clause : list (string * value)) (key : string) : bool :=
  existsb (fun kv => String.eqb key kv.1) set_clause.

Definition apply_onupdate (now : Z) (cols : list column)
    (set_clause : list (string * value)) (row : instance) : instance :=
  foldr (fun c o =>
           if onupdate_now c && negb (named_in set_clause (col_name c))
           then <[col_name c := VDateTime now]> o else o)
        row cols.

Definition updated_row (now : Z) (m : mapped_class)
    (set_clause : list (string * value)) (row : instance) : instance :=
  apply_onupdate now (columns m) set_clause (apply_set set_clause row).

Fixpoint replace_row (pk : value) (new : instance) (rows : list instance) : list instance :=
  match rows with
  | [] => []
  | r :: rest =>
      if holds_value "id" pk r then new :: rest else r :: replace_row pk new rest
  end.

Definition find_row (d : database) (m : mapped_class) (pk : value) : option instance :=
  find (holds_value "id" pk) (rows_of d (tablename m)).

Definition update (enforce_fk : bool) (now : Z) (m : mapped_class) (pk : value)
    (set_clause : list (string * value)) (d : database) : result unit * database :=
  match find_row d m pk with
  | None => (Ok (), d)
  | Some row =>
      let row' := updated_row now m set_clause row in
      let others := List.filter (fun r => negb (holds_value "id" pk r))
                           (rows_of d (tablename m)) in
      match check_constraints enforce_fk d m others row' with
      | Ok _ => (Ok (), <[tablename m := replace_row pk row' (rows_of d (tablename m))]> d)
      | Raise e => (Raise e, d)
      end
  end.

(** [obj = Model.query.get(pk); obj.key = v; session.commit()]: the
    validator runs at the assignment, the UPDATE at the commit. *)
Definition modify (enforce_fk : bool) (now : Z) (m : mapped_class) (pk : value)
    (key : string) (v : value) (d : database) : result unit * database :=
  match find_row d m pk with
  | None => (Ok (), d)
  | Some row =>
      match setattr m key v row with
      | (Ok _, row') => update enforce_fk now m pk [(key, getattr row' key)] d
      | (Raise e, _) => (Raise e, d)
      end
  end.

(** ** Relationships and serialization

    [SerializerMixin.to_dict] walks the columns and relationships of an
    instance.  A rule ["-a.b"] of a class removes key [b] from whatever
    is reached under key [a]; every model met on the way adds its own
    [serialize_rules] at the place where it is met. *)

Fixpoint split_dots (s : string) : list string :=
  match s with
  | EmptyString => [""]
  | String c rest =>
      if Ascii.eqb c "."%char then "" :: split_dots rest
      else match split_dots rest with
           | [] => [String c ""]
           | w :: ws => String c w :: ws
           end
  end.

(** A rule that starts with [-] excludes the path after it. *)
Definition parse_rule (rule : string) : bool * list string :=
  match rule with
  | String c rest =>
      if Ascii.eqb c "-"%char then (true, split_dots rest)
      else (false, split_dots rule)
  | EmptyString => (false, [])
  end.

Definition excluded_paths (rules : list string) : list (list string) :=
  omap (fun rule => let '(negative, path) := parse_rule rule in
                    if negative then Some path else None) rules.

Definition path_in (p : list string) (schema : list (list string)) : bool :=
  existsb (fun q => bool_decide (p = q)) schema.

(** The rules that still apply below key [k]. *)
Definition fork (k : string) (schema : list (list string)) : list (list string) :=
  omap (fun p => match p with
                 | k' :: (_ :: _) as rest => if String.eqb k k' then Some (tail p) else None
                 | _ => None
                 end) schema.

(** The column of [m] that references [table], with the key it points at. *)
Definition fk_to (m : mapped_class) (table : string) : option (string * string) :=
  match List.filter (fun c => match foreign_key c with
                         | Some (t, _) => String.eqb t table
                         | None => false
                         end) (columns m) with
  | c :: _ => option_map (fun tk => (col_name c, snd tk)) (foreign_key c)
  | [] => None
  end.

(** The rows a relationship of [obj] leads to, and whether the attribute
    is a collection. *)
Definition related (d : database) (m : mapped_class) (obj : instance)
    (r : relationship) : option (mapped_class * bool * list instance) :=
  match find_class (rel_target r) with
  | None => None
  | Some t =>
      match fk_to m (tablename t) with
      | Some (c, k) =>
          Some (t, default false (uselist r),
                List.filter (fun row => holds_value k (getattr obj c) row)
                       (rows_of d (tablename t)))
      | None =>
          match fk_to t (tablename m) with
          | Some (c, k) =>
              Some (t, default true (uselist r),
                    List.filter (fun row => holds_value c (getattr obj k) row)
                           (rows_of d (tablename t)))
          | None => None
          end
      end
  end.

#[warnings="-register-all"]
Inductive json : Type :=
| JVal (v : value)
| JObj (fields : list (string * json))
| JArr (items : list json)
| JTooDeep.

(** The columns of an instance that the rules in force leave in. *)
Definition column_fields (m : mapped_class) (obj : instance)
    (schema : list (list string)) : list (string * json) :=
  omap (fun c => if path_in [col_name c] schema then None
                 else Some (col_name c, JVal (getattr obj (col_name c))))
       (columns m).

(** The relationships the rules leave in; [recur] serializes a related
    row under the rules that still apply below the key. *)
Definition relationship_fields
    (recur : mapped_class -> instance -> list (list string) -> json)
    (d : database) (m : mapped_class) (obj : instance)
    (schema : list (list string)) : list (string * json) :=
  omap (fun r =>
          if path_in [rel_name r] schema then None
          else
            match related d m obj r with
            | None => None
            | Some (t, many, rows) =>
                let items :=
                  map (fun row => recur t row (fork (rel_name r) schema)) rows in
                Some (rel_name r,
                      if many then JArr items
                      else match items with
                           | j :: _ => j
                           | [] => JVal VNone
                           end)
            end)
       (relationships m).

(** [fuel] bounds the depth of the walk; [JTooDeep] marks where a walk
    that no rule cuts would go on. *)
Fixpoint serialize_model (fuel : nat) (d : database) (m : mapped_class)
    (obj : instance) (schema : list (list string)) : json :=
  match fuel with
  | O => JTooDeep
  | S fuel' =>
      let schema' := (schema ++ excluded_paths (serialize_rules m))%list in
      JObj (column_fields m obj schema'
            ++ relationship_fields (serialize_model fuel' d) d m obj schema')%list
  end.

Definition to_dict (fuel : nat) (d : database) (m : mapped_class) (obj : instance) : json :=
  serialize_model fuel d m obj [].

(** What sits under key [k] of a serialized object: the value itself, or
    the items of a collection. *)
Definition under (k : string) (j : json) : list json :=
  match j with
  | JObj fields =>
      flat_map (fun kv => if String.eqb k kv.1
                          then match kv.2 with JArr items => items | j' => [j'] end
                          else []) fields
  | _ => []
  end.

(** [includes path j]: the output [j] has the keys of [path], one under
    the other. *)
Fixpoint includes (path : list string) (j : json) : bool :=
  match path with
  | [] => true
  | k :: rest => existsb (includes rest) (under k j)
  end.

(** A class declares the back edge of its relationship [r] when its
    rules exclude [r.back_populates]. *)
Definition declares_back_edge (m : mapped_class) (r : relationship) : bool :=
  path_in [rel_name r; back_populates r] (excluded_paths (serialize_rules m)).

Definition undeclared_back_edges : list (string * string) :=
  flat_map (fun m => omap (fun r => if declares_back_edge m r then None
                                    else Some (class_name m, rel_name r))
                          (relationships m)) registry.

(** ** Contracts and example data *)

(** The contract the password code relies on: a hash verifies the
    password it was made from. *)
Definition verifiable (bcrypt : Bcrypt) : Prop :=
  forall salt p, check_password_hash bcrypt (generate_password_hash bcrypt salt p) p = true.

(** The hashes of a primitive fit in a finite set, as strings of one
    fixed length do. *)
Definition finite_range (bcrypt : Bcrypt) : Prop :=
  exists hashes : list string,
    forall salt p, In (generate_password_hash bcrypt salt p) hashes.

(** A stand-in primitive to run the definitions on: it tags the password
    instead of hashing it, and ignores the salt. *)
Definition stub_bcrypt : Bcrypt :=
  {| generate_password_hash := fun salt p => "$2b$" ++ p;
     check_password_hash := fun h p => String.eqb h ("$2b$" ++ p) |}.

(** A value that is [None] or a [str]. *)
Definition of_optional (o : option string) : value :=
  match o with
  | None => VNone
  | Some s => VStr s
  end.

Definition nonempty (o : option string) : bool :=
  match o with
  | Some (String _ _) => true
  | _ => false
  end.

(** The text attributes guarded by a non-empty validator. *)
Definition guarded_text : list (mapped_class * string) :=
  [ (User.cls, "username"); (BookClub.cls, "name"); (Book.cls, "title");
    (Book.cls, "author"); (Genre.cls, "name") ].

(** The columns stamped by [default=]. *)
Definition stamped : list (mapped_class * string) :=
  [ (BookClub.cls, "created_at"); (CurrentReading.cls, "started_at");
    (Review.cls, "created_at"); (Review.cls, "updated_at") ].

(** The databases calling code can reach from the empty one. *)
Inductive reachable : database -> Prop :=
| reachable_empty : reachable ∅
| reachable_create fk now m kwargs d :
    In m registry -> reachable d -> reachable (create fk now m kwargs d).2
| reachable_modify fk now m pk key v d :
    In m registry -> reachable d -> reachable (modify fk now m pk key v d).2.

(** A small database: one user, one club, one genre, one book. *)
Definition library : database :=
  let step m kwargs (d : database) := (create true 100 m kwargs d).2 in
  step Book.cls [("title", VStr "Dune"); ("author", VStr "Herbert"); ("genre_id", VInt 1)]
    (step Genre.cls [("name", VStr "Fiction")]
       (step BookClub.cls [("name", VStr "Mystery Lovers"); ("created_by", VInt 1)]
          (step User.cls [("username", VStr "ann"); ("email", VStr "ann@example.org");
                          ("_password_hash", VStr "$2b$secret")] ∅))).

Definition reading_kwargs : list (string * value) :=
  [("book_club_id", VInt 1); ("book_id", VInt 1)].

(** The same, after the club started reading the book. *)
Definition library_reading : database :=
  (create true 200 CurrentReading.cls reading_kwargs library).2.

Definition review_kwargs (content : string) (rating : Z) : list (string * value) :=
  [("user_id", VInt 1); ("book_id", VInt 1); ("book_club_id", VInt 1);
   ("content", VStr content); ("rating", VInt rating)].

Definition library_reviewed : database :=
  (create true 300 Review.cls (review_kwargs "Great" 5) library_reading).2.

Definition the_club : instance :=
  default ∅ (find_row library_reviewed BookClub.cls (VInt 1)).

Definition the_review : instance :=
  default ∅ (find_row library_reviewed Review.cls (VInt 1)).

Definition three_and_a_half : value := VFloat (FFinite 7 (-1)).

(** Passwords of every length from six up, all different. *)
Fixpoint padded (n : nat) : string :=
  match n with
  | O => "secret"
  | S k => String "a" (padded k)
  end.

(** The password contract as the specification words it: a password of
    six characters or more can be set, authenticates, and no other
    password does. *)
Definition separates_passwords (bcrypt : Bcrypt) : Prop :=
  forall (salt p : string) (self : instance),
    (6 <= String.length p)%nat ->
    succeeds (User.password_hash_setter bcrypt salt (VStr p)) self
    /\ User.authenticate bcrypt
         (after (User.password_hash_setter bcrypt salt (VStr p)) self) (VStr p)
       = Ok true
    /\ forall p' : string, p' <> p ->
         User.authenticate bcrypt
           (after (User.password_hash_setter bcrypt salt (VStr p)) self) (VStr p')
         = Ok false.

(** An instance that already carries a password hash. *)
Definition registered_user : instance :=
  <["_password_hash" := VStr "$2b$secret"]> ∅.

(** No column of the list is a default-stamped column called [key]. *)
Definition no_default (key : string) (cols : list column) : bool :=
  forallb (fun c => negb (default_now c && String.eqb key (col_name c))) cols.

(** No column of the list is a primary key called [key]. *)
Definition no_primary_key (key : string) (cols : list column) : bool :=
  forallb (fun c => negb (primary_key c && String.eqb key (col_name c))) cols.

(** [key] names a NOT NULL column of the list. *)
Definition required (key : string) (cols : list column) : bool :=
  existsb (fun c => negb (nullable c) && String.eqb key (col_name c)) cols.

(** A review instance as the constructor leaves it, with empty content. *)
Definition empty_review : instance := list_to_map (review_kwargs "" 5).

(** The library after the club started the same book a second time. *)
Definition library_two_readings : database :=
  (create true 250 CurrentReading.cls reading_kwargs library_reading).2.

(** The [current_reading] relationship of [BookClub]. *)
Definition current_reading_rel : relationship :=
  Relationship "current_reading" "CurrentReading" "book_club" (Some false).

(** The row a write returned, and the empty instance where it raised. *)
Definition the_row (r : result instance) : instance :=
  match r with
  | Ok row => row
  | Raise _ => ∅
  end.

(** [CurrentReading(book_club_id=club, book_id=book)], added and
    committed. *)
Definition start_reading (fk : bool) (now club book : Z) (d : database)
    : result instance * database :=
  create fk now CurrentReading.cls
    [("book_club_id", VInt club); ("book_id", VInt book)] d.

(** The row [start_reading] writes. *)
Definition reading_row (now club book : Z) (d : database) : instance :=
  <["id" := VInt (next_id "id" (rows_of d "current_readings"))]>
    (<["started_at" := VDateTime now]>
       (<["book_id" := VInt book]> (<["book_club_id" := VInt club]> ∅))).

(** A non-empty [str]. *)
Definition nonempty_str (v : value) : bool :=
  match v with
  | VStr (String _ _) => true
  | _ => false
  end.

(** The body the five text validators share:
    [assert v is not None and len(v) > 0; return v]. *)
Definition nonempty_validator (v : value) : result value :=
  Py.bind (not_none_and_nonempty v) (fun b => assert_then b v).

(** No column of the list is an [onupdate] column called [key]. *)
Definition no_onupdate (key : string) (cols : list column) : bool :=
  forallb (fun c => negb (onupdate_now c && String.eqb key (col_name c))) cols.

(** [key] is a text attribute of [m] behind the non-empty validator: a
    NOT NULL column that the store neither numbers nor stamps. *)
Definition guarded (m : mapped_class) (key : string) : Prop :=
  In m registry
  /\ (forall (v : value) (obj : instance),
        setattr m key v obj
          = match nonempty_validator v with
            | Ok v' => (Ok (), <[key := v']> obj)
            | Raise e => (Raise e, obj)
            end)
  /\ required key (columns m) = true
  /\ no_default key (columns m) = true
  /\ no_primary_key key (columns m) = true
  /\ no_onupdate key (columns m) = true.

(** Every stored row holds a non-empty string in each guarded text
    column. *)
Definition text_persisted_nonempty (d : database) : bool :=
  forallb (fun mk : mapped_class * string =>
             forallb (fun row => nonempty_str (getattr row mk.2))
                     (rows_of d (tablename mk.1)))
          guarded_text.

(** The attribute [key] was never assigned, or holds a non-empty string. *)
Definition unset_or_nonempty (key : string) (obj : instance) : Prop :=
  getattr obj key = VNone \/ nonempty_str (getattr obj key) = true.

(** The row [modify] writes in place of [row]. *)
Definition modified_row (now : Z) (m : mapped_class) (key : string) (v : value)
    (row : instance) : instance :=
  updated_row now m [(key, getattr (setattr m key v row).2 key)] row.

(** A club whose caller supplies [created_at] itself. *)
Definition backdated_club : list (string * value) :=
  [("name", VStr "Mystery Lovers"); ("created_by", VInt 1);
   ("created_at", VDateTime 5)].

(** A review instance as the constructor leaves it, no timestamp set. *)
Definition great_review : instance := list_to_map (review_kwargs "Great" 5).

(** Every character, and every string of at most [n] characters. *)
Definition all_ascii : list ascii := map ascii_of_nat (seq 0 256).

Fixpoint strings_upto (n : nat) : list string :=
  match n with
  | O => [""]
  | S k => "" :: flat_map (fun s => map (fun c => String c s) all_ascii)
                          (strings_upto k)
  end.

(** ** Properties of stored rows *)

(** A string with an at sign. *)
Definition contains_at (v : value) : bool :=
  match v with
  | VStr s => has_char "@" s
  | _ => false
  end.

(** A number [v] with [1 <= v <= 5]. *)
Definition rating_in_range (v : value) : bool :=
  match v with
  | VInt n => (1 <=? n) && (n <=? 5)
  | VBool b => b
  | VFloat f => int_le_float 1 f && float_le_int f 5
  | _ => false
  end.

(** The attribute [key] of [m] is assigned only through a validator that
    lets a value pass unchanged and only if [P] holds of it, and it is a
    NOT NULL column that the store neither numbers nor stamps. *)
Definition checked (m : mapped_class) (key : string) (P : value -> bool) : Prop :=
  In m registry
  /\ (forall (v : value) (obj : instance),
        is_ok (setattr m key v obj).1 = true ->
        (setattr m key v obj).2 = <[key := v]> obj /\ P v = true)
  /\ required key (columns m) = true
  /\ no_default key (columns m) = true
  /\ no_primary_key key (columns m) = true
  /\ no_onupdate key (columns m) = true.

(** Every row of the table of [m] satisfies [P] in column [key]. *)
Definition column_holds (m : mapped_class) (key : string) (P : value -> bool)
    (d : database) : bool :=
  forallb (fun row => P (getattr row key)) (rows_of d (tablename m)).

(** Every stored row of every class has a value in each NOT NULL column. *)
Definition all_required_set (d : database) : bool :=
  forallb (fun m => forallb (fun row => is_ok (check_not_null (columns m) row))
                            (rows_of d (tablename m)))
          registry.

(** The values of column [key] over the rows of a table. *)
Definition column_values (key : string) (rows : list instance) : list value :=
  map (fun r => getattr r key) rows.

(** No two rows of a table agree on a UNIQUE column or on the primary
    key. *)
Definition keys_distinct (d : database) : Prop :=
  forall (m : mapped_class) (c : column),
    In m registry -> In c (columns m) ->
    unique c || primary_key c = true ->
    NoDup (column_values (col_name c) (rows_of d (tablename m))).

(** The rows an UPDATE of the row numbered [pk] checks the new row
    against. *)
Definition other_rows (pk : value) (rows : list instance) : list instance :=
  List.filter (fun r => negb (holds_value "id" pk r)) rows.

(** ** Password changes and serialized output *)

(** [user.password_hash = first] followed by [user.password_hash =
    second], the caller catching what the first raises. *)
Definition change_password (bcrypt : Bcrypt) (salt salt' : string)
    (first second : value) (self : instance) : instance :=
  after (User.password_hash_setter bcrypt salt' second)
        (after (User.password_hash_setter bcrypt salt first) self).

(** The classes whose rules name the back edge of each relationship. *)
Definition fully_ruled : list mapped_class :=
  [ User.cls; Book.cls; Genre.cls; Membership.cls; CurrentReading.cls;
    Review.cls ].

(** ** A walk that the rules do not cut

    From a user to a club the user created, to a membership of that club,
    to the member: when the member is the creator, the walk is back where
    it started. *)
Inductive stage : Type := AtUser | AtClub | AtMembership.

Definition next_stage (st : stage) : stage :=
  match st with
  | AtUser => AtClub
  | AtClub => AtMembership
  | AtMembership => AtUser
  end.

Definition stage_class (st : stage) : mapped_class :=
  match st with
  | AtUser => User.cls
  | AtClub => BookClub.cls
  | AtMembership => Membership.cls
  end.

(** The relationship the walk follows at each stage, as declared. *)
Definition stage_rel (st : stage) : relationship :=
  match st with
  | AtUser => Relationship "book_clubs_created" "BookClub" "creator" None
  | AtClub => Relationship "members" "Membership" "book_club" None
  | AtMembership => Relationship "user" "User" "memberships" None
  end.

Fixpoint cycle_path (st : stage) (n : nat) : list string :=
  match n with
  | O => []
  | S k => rel_name (stage_rel st) :: cycle_path (next_stage st) k
  end.

(** [p] is a non-empty stretch of the walk that starts at [st]. *)
Definition on_cycle (st : stage) (p : list string) : bool :=
  match p with
  | [] => false
  | _ => bool_decide (p = cycle_path st (length p))
  end.

(** No rule in force excludes a stretch of the walk. *)
Definition clear_of_cycle (st : stage) (schema : list (list string)) : bool :=
  forallb (fun p => negb (on_cycle st p)) schema.

(** Following [path] in the output [j] ends where the depth bound cut
    the walk. *)
Fixpoint cut_at (path : list string) (j : json) : bool :=
  match path with
  | [] => match j with JTooDeep => true | _ => false end
  | k :: rest => existsb (cut_at rest) (under k j)
  end.

(** The row numbered [pk], or the empty instance. *)
Definition row_of (d : database) (m : mapped_class) (pk : value) : instance :=
  default ∅ (find_row d m pk).

(** The library after its user joined the club the user created. *)
Definition library_joined : database :=
  (create true 150 Membership.cls
     [("user_id", VInt 1); ("book_club_id", VInt 1)] library).2.

(** The row the walk stands on at each stage. *)
Definition stage_row (u c mb : instance) (st : stage) : instance :=
  match st with
  | AtUser => u
  | AtClub => c
  | AtMembership => mb
  end.

(** ** Relationships and memberships *)

(** The rows a relationship attribute of [obj] loads. *)
Definition related_rows (d : database) (m : mapped_class) (obj : instance)
    (r : relationship) : list instance :=
  match related d m obj r with
  | Some (_, _, rows) => rows
  | None => []
  end.

(** The relationship [back_populates] names, on the target class. *)
Definition back_relationship (m : mapped_class) (r : relationship)
    : option (mapped_class * relationship) :=
  match find_class (rel_target r) with
  | Some t =>
      match find (fun r' => String.eqb (rel_name r') (back_populates r))
                 (relationships t) with
      | Some r' => Some (t, r')
      | None => None
      end
  | None => None
  end.

(** [Membership(user_id=user, book_club_id=club)], added and committed. *)
Definition join (fk : bool) (now user club : Z) (d : database)
    : result instance * database :=
  create fk now Membership.cls
    [("user_id", VInt user); ("book_club_id", VInt club)] d.

(** The row [join] writes. *)
Definition membership_row (user club : Z) (d : database) : instance :=
  <["id" := VInt (next_id "id" (rows_of d "memberships"))]>
    (<["book_club_id" := VInt club]> (<["user_id" := VInt user]> ∅)).

(** ** Reading a repr back *)

(** The characters that follow a number in a repr. *)
Definition separator (c : ascii) : bool :=
  Ascii.eqb c "." || Ascii.eqb c "," || Ascii.eqb c ">".

Fixpoint no_separator (s : string) : bool :=
  match s with
  | EmptyString => true
  | String c rest => negb (separator c) && no_separator rest
  end.

(** The classes whose repr shows the identifier and a text attribute. *)
Definition named_reprs : list ((instance -> option string) * string * string) :=
  [ (User.__repr__, "<User ", "username");
    (BookClub.__repr__, "<BookClub ", "name");
    (Book.__repr__, "<Book ", "title");
    (Genre.__repr__, "<Genre ", "name") ].

(** [BookClub(name=name, created_by=creator)], added and committed. *)
Definition found_club (fk : bool) (now : Z) (name : string) (creator : Z)
    (d : database) : result instance * database :=
  create fk now BookClub.cls
    [("name", VStr name); ("created_by", VInt creator)] d.

(** The row [found_club] writes. *)
Definition club_row (now : Z) (name : string) (creator : Z) (d : database)
    : instance :=
  <["id" := VInt (next_id "id" (rows_of d "book_clubs"))]>
    (<["created_at" := VDateTime now]>
       (<["created_by" := VInt creator]> (<["name" := VStr name]> ∅))).

(** * Theorems *)

(** ** Helper facts about evaluation *)

Lemma setattr_validated (m : mapped_class) (key : string) (f : validator)
    (v : value) (obj : instance) :
  assoc key (validators m) = Some f ->
  setattr m key v obj
    = match f key v with
      | Ok v' => (Ok (), <[key := v']> obj)
      | Raise e => (Raise e, obj)
      end.
Proof.
  intros H. unfold setattr. rewrite H. reflexivity.
Qed.

Lemma setattr_plain (m : mapped_class) (key : string) (v : value) (obj : instance) :
  assoc key (validators m) = None ->
  setattr m key v obj = (Ok (), <[key := v]> obj).
Proof.
  intros H. unfold setattr. rewrite H. reflexivity.
Qed.

Lemma chained_le_int (lo n hi : Z) :
  chained_le lo (VInt n) hi = Ok ((lo <=? n) && (n <=? hi)).
Proof.
  unfold chained_le; simpl.
  destruct (lo <=? n); reflexivity.
Qed.

Lemma validate_rating_int (n : Z) :
  Review.validate_rating "rating" (VInt n) =
    if (1 <=? n) && (n <=? 5) then Ok (VInt n) else Raise AssertionError.
Proof.
  unfold Review.validate_rating.
  rewrite chained_le_int; simpl.
  destruct ((1 <=? n) && (n <=? 5)); reflexivity.
Qed.

Lemma in_range_spec (n : Z) : (1 <=? n) && (n <=? 5) = true <-> 1 <= n <= 5.
Proof.
  rewrite andb_true_iff, !Z.leb_le. tauto.
Qed.

(** ** Review.rating *)

(** C1, counterexample: the float 3.5 is not an integer, and assigning
    it to [Review.rating] succeeds and stores 3.5. *)
Lemma rating_three_and_a_half_accepted :
  is_int three_and_a_half = false
  /\ succeeds (setattr Review.cls "rating" three_and_a_half) ∅
  /\ getattr (after (setattr Review.cls "rating" three_and_a_half) ∅) "rating"
     = three_and_a_half.
Proof.
  repeat split; vm_compute; reflexivity.
Qed.

(** C1, as amended: for every integer [n], assigning [n] to
    [Review.rating] (and constructing a review with it) succeeds exactly
    when [1 <= n <= 5] and then stores [n] itself; otherwise it raises an
    assertion failure and leaves the instance as it was; 0 and 6 are
    rejected.  The validator only compares, so the number 3.5 passes. *)
Theorem rating_assignment_integer (n : Z) (obj : instance) :
  setattr Review.cls "rating" (VInt n) obj
    = (if (1 <=? n) && (n <=? 5)
       then (Ok (), <["rating" := VInt n]> obj)
       else (Raise AssertionError, obj))
  /\ (succeeds (setattr Review.cls "rating" (VInt n)) obj <-> 1 <= n <= 5)
  /\ construct Review.cls [("rating", VInt n)]
     = (if (1 <=? n) && (n <=? 5)
        then Ok (<["rating" := VInt n]> ∅)
        else Raise AssertionError)
  /\ raises (setattr Review.cls "rating" (VInt 0)) obj AssertionError
  /\ raises (setattr Review.cls "rating" (VInt 6)) obj AssertionError
  /\ setattr Review.cls "rating" three_and_a_half obj
     = (Ok (), <["rating" := three_and_a_half]> obj).
Proof.
  assert (E : setattr Review.cls "rating" (VInt n) obj
              = (if (1 <=? n) && (n <=? 5)
                 then (Ok (), <["rating" := VInt n]> obj)
                 else (Raise AssertionError, obj))).
  { rewrite (setattr_validated _ _ Review.validate_rating) by reflexivity.
    rewrite validate_rating_int.
    destruct ((1 <=? n) && (n <=? 5)); reflexivity. }
  split; [exact E|].
  split.
  { unfold succeeds. rewrite E, <- in_range_spec.
    destruct ((1 <=? n) && (n <=? 5)); simpl; split; congruence. }
  split.
  { unfold construct, construct_from.
    change (is_column Review.cls "rating") with true; cbv iota.
    rewrite (setattr_validated _ _ Review.validate_rating) by reflexivity.
    rewrite validate_rating_int.
    destruct ((1 <=? n) && (n <=? 5)); reflexivity. }
  repeat split; reflexivity.
Qed.

(** ** User.email *)

Lemma validate_email_cases (key : string) (v : value) :
  User.validate_email key v
    = match v with
      | VStr s => if has_char "@" s then Ok v else Raise AssertionError
      | _ => Raise TypeError
      end.
Proof.
  destruct v; reflexivity.
Qed.




(** ** The password property of User *)

Lemma password_hash_setter_str (bcrypt : Bcrypt) (salt p : string) (self : instance) :
  User.password_hash_setter bcrypt salt (VStr p) self
    = if Z.of_nat (String.length p) <? 6
      then (Raise (ValueError User.password_error), self)
      else (Ok (), <["_password_hash" := VStr (generate_password_hash bcrypt salt p)]> self).
Proof.
  reflexivity.
Qed.

Lemma authenticate_after_set (bcrypt : Bcrypt) (h p : string) (self : instance) :
  User.authenticate bcrypt (<["_password_hash" := VStr h]> self) (VStr p)
    = Ok (check_password_hash bcrypt h p).
Proof.
  unfold User.authenticate, getattr.
  rewrite lookup_insert_eq. reflexivity.
Qed.

(** C3: setting a password of fewer than six characters raises the value
    error with its message and leaves the instance, and so the hash it
    stored before, as it was. *)
Theorem short_password_rejected (bcrypt : Bcrypt) (salt p : string) (self : instance) :
  (String.length p < 6)%nat ->
  User.password_hash_setter bcrypt salt (VStr p) self
    = (Raise (ValueError "Password must be at least 6 characters long"), self)
  /\ User.password_hash (after (User.password_hash_setter bcrypt salt (VStr p)) self)
     = User.password_hash self.
Proof.
  intros Hlen.
  assert (E : User.password_hash_setter bcrypt salt (VStr p) self
              = (Raise (ValueError User.password_error), self)).
  { rewrite password_hash_setter_str.
    destruct (Z.ltb_spec (Z.of_nat (String.length p)) 6); [reflexivity | lia]. }
  split; [exact E|].
  unfold after. rewrite E. reflexivity.
Qed.

Lemma short_password_rejected_witness :
  (String.length "abc" < 6)%nat
  /\ User.password_hash_setter stub_bcrypt "salt" (VStr "abc") registered_user
     = (Raise (ValueError "Password must be at least 6 characters long"), registered_user)
  /\ User.password_hash
       (after (User.password_hash_setter stub_bcrypt "salt" (VStr "abc")) registered_user)
     = User.password_hash registered_user.
Proof.
  split; [simpl; lia|].
  apply (short_password_rejected stub_bcrypt "salt" "abc" registered_user).
  simpl; lia.
Defined.

Lemma padded_length (n : nat) : String.length (padded n) = (6 + n)%nat.
Proof.
  induction n as [|n IH]; simpl; [reflexivity|].
  rewrite IH. lia.
Qed.

Lemma padded_inj (i j : nat) : padded i = padded j -> i = j.
Proof.
  intros H. apply (f_equal String.length) in H.
  rewrite !padded_length in H. lia.
Qed.

(** Two passwords with one hash, for a primitive whose hashes fit in a
    finite set. *)
Lemma finite_range_collision (bcrypt : Bcrypt) (salt : string) :
  finite_range bcrypt ->
  exists i j : nat,
    i <> j
    /\ generate_password_hash bcrypt salt (padded i)
       = generate_password_hash bcrypt salt (padded j).
Proof.
  intros [hashes Hin].
  pose (l := (fun i => generate_password_hash bcrypt salt (padded i))
               <$> seq 0 (S (length hashes))).
  destruct (list_pigeonhole l hashes) as (i & j & x & Hij & Hi & Hj).
  - intros h Hh. apply list_elem_of_In.
    apply list_elem_of_fmap in Hh as (k & -> & _). apply Hin.
  - unfold l. rewrite length_fmap, length_seq. lia.
  - exists i, j. split; [lia|].
    unfold l in Hi, Hj. rewrite list_lookup_fmap in Hi, Hj.
    destruct (seq 0 (S (length hashes)) !! i) as [a|] eqn:Ha; [|discriminate].
    destruct (seq 0 (S (length hashes)) !! j) as [b|] eqn:Hb; [|discriminate].
    apply lookup_seq in Ha as [-> _]. apply lookup_seq in Hb as [-> _].
    simpl in Hi, Hj. congruence.
Qed.

Lemma all_ascii_complete (c : ascii) : In c all_ascii.
Proof.
  unfold all_ascii. apply in_map_iff.
  exists (nat_of_ascii c). split; [apply ascii_nat_embedding|].
  apply in_seq. pose proof (nat_ascii_bounded c). lia.
Qed.

Lemma strings_upto_complete (n : nat) (s : string) :
  (String.length s <= n)%nat -> In s (strings_upto n).
Proof.
  revert s.
  induction n as [|n IH]; intros [|c s]; cbn [strings_upto String.length];
    intros Hlen.
  - left. reflexivity.
  - lia.
  - left. reflexivity.
  - right. apply in_flat_map. exists s. split; [apply IH; lia|].
    apply in_map_iff. exists c. split; [reflexivity | apply all_ascii_complete].
Qed.

(** Hashes of bounded length, such as the sixty characters of a bcrypt
    hash, fit in a finite set. *)
Lemma bounded_hashes_finite_range (bcrypt : Bcrypt) (n : nat) :
  (forall salt p, (String.length (generate_password_hash bcrypt salt p) <= n)%nat) ->
  finite_range bcrypt.
Proof.
  intros Hlen. exists (strings_upto n).
  intros salt p. apply strings_upto_complete, Hlen.
Qed.




(** ** Helper facts about instances and the store *)

Lemma getattr_empty (key : string) : getattr ∅ key = VNone.
Proof.
  unfold getattr. rewrite lookup_empty. reflexivity.
Qed.

Lemma getattr_insert (obj : instance) (k k' : string) (v : value) :
  getattr (<[k := v]> obj) k' = if String.eqb k' k then v else getattr obj k'.
Proof.
  unfold getattr.
  destruct (String.eqb_spec k' k) as [->|Hne].
  - rewrite lookup_insert_eq. reflexivity.
  - rewrite lookup_insert_ne by congruence. reflexivity.
Qed.

Lemma is_none_spec (v : value) : is_none v = true <-> v = VNone.
Proof.
  destruct v; simpl; split; congruence.
Qed.

Section Defaults.
Variables (now : Z) (key : string).

Lemma apply_defaults_other (cols : list column) (obj : instance) :
  no_default key cols = true ->
  getattr (apply_defaults now cols obj) key = getattr obj key.
Proof.
  induction cols as [|c cols IH]; simpl; [reflexivity|].
  rewrite andb_true_iff, negb_true_iff. intros [Hc Hrest].
  destruct (default_now c && is_none _) eqn:Hd; [|auto].
  rewrite getattr_insert.
  destruct (String.eqb key (col_name c)); [|auto].
  apply andb_true_iff in Hd as [Hd _]. rewrite Hd in Hc. discriminate.
Qed.

Lemma apply_defaults_keeps_or_stamps (cols : list column) (obj : instance) :
  getattr (apply_defaults now cols obj) key = getattr obj key
  \/ getattr (apply_defaults now cols obj) key = VDateTime now.
Proof.
  induction cols as [|c cols IH]; simpl; [auto|].
  destruct (default_now c && is_none _); [|auto].
  rewrite getattr_insert.
  destruct (String.eqb key (col_name c)); auto.
Qed.

Lemma apply_defaults_given (cols : list column) (obj : instance) :
  getattr obj key <> VNone ->
  getattr (apply_defaults now cols obj) key = getattr obj key.
Proof.
  intros Hset.
  induction cols as [|c cols IH]; simpl; [reflexivity|].
  destruct (default_now c && is_none _) eqn:Hc; [|auto].
  rewrite getattr_insert.
  destruct (String.eqb_spec key (col_name c)) as [E|_]; [|auto].
  apply andb_true_iff in Hc as [_ Hnone].
  apply is_none_spec in Hnone. rewrite <- E in Hnone. congruence.
Qed.

Lemma apply_defaults_stamps (cols : list column) (obj : instance) :
  no_default key cols = false ->
  getattr obj key = VNone ->
  getattr (apply_defaults now cols obj) key = VDateTime now.
Proof.
  intros Hcols Hunset.
  induction cols as [|c cols IH]; simpl in *; [discriminate|].
  destruct (default_now c && String.eqb key (col_name c)) eqn:Hc; simpl in Hcols.
  - apply andb_true_iff in Hc as [Hdef Hname].
    apply String.eqb_eq in Hname. rewrite <- Hname, Hdef. simpl.
    destruct (is_none _) eqn:Hnone.
    + rewrite getattr_insert, String.eqb_refl. reflexivity.
    + destruct (apply_defaults_keeps_or_stamps cols obj) as [E|E]; [|exact E].
      rewrite E, Hunset in Hnone. discriminate.
  - destruct (default_now c && is_none _); [|auto].
    rewrite getattr_insert.
    destruct (String.eqb key (col_name c)); auto.
Qed.

Lemma assign_primary_key_other (cols : list column) (rows : list instance)
    (obj : instance) :
  no_primary_key key cols = true ->
  getattr (assign_primary_key cols rows obj) key = getattr obj key.
Proof.
  induction cols as [|c cols IH]; simpl; [reflexivity|].
  rewrite andb_true_iff, negb_true_iff. intros [Hc Hrest].
  destruct (primary_key c && is_none _) eqn:Hd; [|auto].
  rewrite getattr_insert.
  destruct (String.eqb key (col_name c)); [|auto].
  apply andb_true_iff in Hd as [Hd _]. rewrite Hd in Hc. discriminate.
Qed.

Lemma check_not_null_required (cols : list column) (obj : instance) :
  required key cols = true ->
  check_not_null cols obj = Ok () ->
  getattr obj key <> VNone.
Proof.
  induction cols as [|c cols IH]; simpl; [discriminate|].
  intros Hreq Hcheck.
  destruct (negb (nullable c) && is_none (getattr obj (col_name c))) eqn:Hc;
    [discriminate|].
  apply orb_true_iff in Hreq as [Hhere|Hrest]; [|auto].
  apply andb_true_iff in Hhere as [Hnn Hname].
  apply String.eqb_eq in Hname. rewrite <- Hname in Hc.
  rewrite Hnn in Hc. simpl in Hc.
  intros E. rewrite E in Hc. discriminate.
Qed.
End Defaults.

Lemma bind_ok {A B} (r : result A) (k : A -> result B) (b : B) :
  Py.bind r k = Ok b -> exists a, r = Ok a /\ k a = Ok b.
Proof.
  destruct r; simpl; [eauto | discriminate].
Qed.

Lemma insert_ok (fk : bool) (now : Z) (m : mapped_class) (obj : instance)
    (d : database) :
  is_ok (insert fk now m obj d).1 = true ->
  the_row (insert fk now m obj d).1
    = assign_primary_key (columns m) (rows_of d (tablename m))
        (apply_defaults now (columns m) obj)
  /\ check_constraints fk d m (rows_of d (tablename m))
       (the_row (insert fk now m obj d).1) = Ok ()
  /\ check_not_null (columns m) (the_row (insert fk now m obj d).1) = Ok ().
Proof.
  unfold insert.
  destruct (check_constraints _ _ _ _ _) as [[]|e] eqn:Hcheck; simpl; [|discriminate].
  intros _. split; [reflexivity|]. split; [exact Hcheck|].
  unfold check_constraints in Hcheck.
  apply bind_ok in Hcheck as ([] & Hnn & _). exact Hnn.
Qed.

(** ** Review.content *)

(** C4, counterexample: a review is created with the empty string as
    content, and the content of a stored review is updated to the empty
    string; neither write is rejected. *)
Lemma empty_review_content_accepted :
  is_ok (create true 300 Review.cls (review_kwargs "" 5) library_reading).1 = true
  /\ (fun r => getattr r "content")
       <$> last (rows_of (create true 300 Review.cls (review_kwargs "" 5)
                            library_reading).2 "reviews")
     = Some (VStr "")
  /\ is_ok (modify true 400 Review.cls (VInt 1) "content" (VStr "")
              library_reviewed).1 = true
  /\ (fun r => getattr r "content")
       <$> find_row (modify true 400 Review.cls (VInt 1) "content" (VStr "")
                       library_reviewed).2 Review.cls (VInt 1)
     = Some (VStr "").
Proof.
  repeat split; vm_compute; reflexivity.
Qed.

(** C4, as amended: [Review.content] is required text: the store writes a
    review with the content it was given and refuses one whose content
    is unset; the assignment itself accepts every value, the empty string
    included, since no validator guards the attribute. *)
Theorem review_content_required_only (fk : bool) (now : Z) (obj : instance)
    (d : database) (v : value) (obj0 : instance) :
  is_ok (insert fk now Review.cls obj d).1 = true ->
  setattr Review.cls "content" v obj0 = (Ok (), <["content" := v]> obj0)
  /\ getattr (the_row (insert fk now Review.cls obj d).1) "content"
     = getattr obj "content"
  /\ getattr obj "content" <> VNone.
Proof.
  intros Hins.
  apply insert_ok in Hins as (Hrow & _ & Hnn).
  split; [reflexivity|].
  assert (E : getattr (the_row (insert fk now Review.cls obj d).1) "content"
              = getattr obj "content").
  { rewrite Hrow.
    rewrite assign_primary_key_other by reflexivity.
    apply apply_defaults_other. reflexivity. }
  split; [exact E|].
  rewrite <- E.
  apply (check_not_null_required "content" (columns Review.cls));
    [reflexivity | exact Hnn].
Qed.

Lemma review_content_required_only_witness :
  is_ok (insert true 300 Review.cls empty_review library_reading).1 = true
  /\ getattr (the_row (insert true 300 Review.cls empty_review library_reading).1)
       "content"
     = getattr empty_review "content"
  /\ getattr empty_review "content" <> VNone.
Proof.
  assert (H : is_ok (insert true 300 Review.cls empty_review library_reading).1 = true)
    by (vm_compute; reflexivity).
  split; [exact H|].
  apply (review_content_required_only true 300 empty_review library_reading VNone ∅ H).
Defined.

(** ** CurrentReading *)

Lemma next_id_bound (key : string) (rows : list instance) (r : instance) :
  In r rows -> int_of (getattr r key) < next_id key rows.
Proof.
  unfold next_id.
  induction rows as [|r' rows IH]; simpl; [tauto|].
  intros [->|Hin]; [lia|].
  specialize (IH Hin). lia.
Qed.

Lemma next_id_fresh (key : string) (rows : list instance) :
  existsb (holds_value key (VInt (next_id key rows))) rows = false.
Proof.
  apply not_true_is_false. intros H.
  apply existsb_exists in H as (r & Hin & Hr).
  unfold holds_value in Hr. apply bool_decide_eq_true in Hr.
  pose proof (next_id_bound key rows r Hin) as Hlt.
  rewrite Hr in Hlt. simpl in Hlt. lia.
Qed.

Lemma library_reachable : reachable library_two_readings.
Proof.
  cbv beta zeta delta [library_two_readings library_reading library].
  repeat (apply reachable_create; [simpl; tauto|]).
  apply reachable_empty.
Qed.




(** ** The non-empty text attributes *)

Lemma nonempty_validator_cases (v : value) :
  nonempty_validator v
    = match v with
      | VNone => Raise AssertionError
      | VStr _ => if nonempty_str v then Ok v else Raise AssertionError
      | _ => Raise TypeError
      end.
Proof.
  destruct v as [| | | |s|]; try reflexivity.
  destruct s; reflexivity.
Qed.

Lemma nonempty_validator_ok (v v' : value) :
  nonempty_validator v = Ok v' -> v' = v /\ nonempty_str v = true.
Proof.
  rewrite nonempty_validator_cases.
  destruct v as [| | | |s|]; try discriminate.
  destruct (nonempty_str (VStr s)) eqn:E; [|discriminate].
  intros H. injection H as <-. auto.
Qed.

Lemma guarded_text_guarded (m : mapped_class) (key : string) :
  In (m, key) guarded_text -> guarded m key.
Proof.
  simpl. intros H.
  repeat (destruct H as [H|H]; [injection H as <- <-|]); [..|contradiction];
    (split; [simpl; tauto|]); (split; [intros v obj; reflexivity|]);
    repeat split; reflexivity.
Qed.

Lemma setattr_other (m : mapped_class) (key key' : string) (v : value)
    (obj : instance) :
  key <> key' ->
  getattr (setattr m key' v obj).2 key = getattr obj key.
Proof.
  intros Hne. unfold setattr, validated_set, plain_set.
  destruct (assoc key' (validators m)) as [f|]; [destruct (f key' v)|]; simpl;
    rewrite ?getattr_insert;
    destruct (String.eqb_spec key key'); congruence.
Qed.

Section Guarded.
Variables (m : mapped_class) (key : string).
Hypothesis Hguard : guarded m key.

Lemma setattr_guarded_ok (v : value) (obj : instance) :
  is_ok (setattr m key v obj).1 = true ->
  nonempty_str (getattr (setattr m key v obj).2 key) = true.
Proof.
  destruct Hguard as (_ & Hset & _). rewrite Hset.
  destruct (nonempty_validator v) as [v'|e] eqn:Hv; simpl; [|discriminate].
  intros _. apply nonempty_validator_ok in Hv as [-> Hv].
  rewrite getattr_insert, String.eqb_refl. exact Hv.
Qed.

Lemma setattr_keeps_invariant (key' : string) (v : value) (obj : instance) :
  unset_or_nonempty key obj -> unset_or_nonempty key (setattr m key' v obj).2.
Proof.
  intros Hobj. unfold unset_or_nonempty.
  destruct (String.eqb_spec key key') as [<-|Hne].
  - destruct Hguard as (_ & Hset & _).
    pose proof (setattr_guarded_ok v obj) as Hok.
    rewrite Hset in *.
    destruct (nonempty_validator v); simpl in *; auto.
  - rewrite setattr_other by exact Hne. exact Hobj.
Qed.

Lemma construct_from_keeps_invariant (kwargs : list (string * value))
    (obj obj' : instance) :
  unset_or_nonempty key obj ->
  construct_from m kwargs obj = Ok obj' ->
  unset_or_nonempty key obj'.
Proof.
  revert obj. induction kwargs as [|[k v] kwargs IH]; simpl; intros obj Hobj.
  - intros H. injection H as <-. exact Hobj.
  - destruct (is_column m k); [|discriminate].
    pose proof (setattr_keeps_invariant k v obj Hobj) as Hnext.
    destruct (setattr m k v obj) as [[[]|e] obj1]; simpl in *; [|discriminate].
    apply IH. exact Hnext.
Qed.

Lemma insert_guarded (fk : bool) (now : Z) (obj : instance) (d : database) :
  unset_or_nonempty key obj ->
  is_ok (insert fk now m obj d).1 = true ->
  nonempty_str (getattr (the_row (insert fk now m obj d).1) key) = true.
Proof.
  intros Hobj Hins.
  destruct Hguard as (_ & _ & Hreq & Hdef & Hpk & _).
  apply insert_ok in Hins as (Hrow & _ & Hnn).
  pose proof (check_not_null_required key _ _ Hreq Hnn) as Hset.
  rewrite Hrow in *.
  rewrite assign_primary_key_other, apply_defaults_other in * by assumption.
  destruct Hobj; congruence.
Qed.
End Guarded.

Lemma rows_of_insert (d : database) (t t' : string) (rows : list instance) :
  rows_of (<[t := rows]> d) t' = if String.eqb t' t then rows else rows_of d t'.
Proof.
  unfold rows_of.
  destruct (String.eqb_spec t' t) as [->|Hne].
  - rewrite lookup_insert_eq. reflexivity.
  - rewrite lookup_insert_ne by congruence. reflexivity.
Qed.

Lemma find_row_in (d : database) (m : mapped_class) (pk : value) (row : instance) :
  find_row d m pk = Some row -> In row (rows_of d (tablename m)).
Proof.
  unfold find_row. intros H. apply find_some in H. tauto.
Qed.

Lemma replace_row_forall (P : instance -> Prop) (pk : value) (new : instance)
    (rows : list instance) :
  P new -> List.Forall P rows -> List.Forall P (replace_row pk new rows).
Proof.
  intros Hnew. induction 1 as [|r rows Hr Hrows IH]; simpl; [constructor|].
  destruct (holds_value "id" pk r); constructor; auto.
Qed.

Lemma insert_rows (fk : bool) (now : Z) (m : mapped_class) (obj : instance)
    (d : database) (t : string) :
  rows_of (insert fk now m obj d).2 t
    = if is_ok (insert fk now m obj d).1 && String.eqb t (tablename m)
      then (rows_of d t ++ [the_row (insert fk now m obj d).1])%list
      else rows_of d t.
Proof.
  unfold insert.
  destruct (check_constraints _ _ _ _ _) as [[]|e]; simpl; [|reflexivity].
  rewrite rows_of_insert.
  destruct (String.eqb_spec t (tablename m)) as [->|Hne]; reflexivity.
Qed.

(** What a [create] leaves in a table: the rows it had, and behind them
    the new row when the write is to this table and goes through. *)
Lemma create_rows (fk : bool) (now : Z) (m : mapped_class)
    (kwargs : list (string * value)) (d : database) (t : string) :
  rows_of (create fk now m kwargs d).2 t = rows_of d t
  \/ (t = tablename m
      /\ exists obj : instance,
           construct m kwargs = Ok obj
           /\ is_ok (insert fk now m obj d).1 = true
           /\ rows_of (create fk now m kwargs d).2 t
              = (rows_of d t ++ [the_row (insert fk now m obj d).1])%list).
Proof.
  unfold create.
  destruct (construct m kwargs) as [obj|e] eqn:Hobj; [|left; reflexivity].
  rewrite insert_rows.
  destruct (is_ok (insert fk now m obj d).1) eqn:Hok; [|left; reflexivity].
  destruct (String.eqb_spec t (tablename m)) as [->|Hne]; [|left; reflexivity].
  right. split; [reflexivity|]. exists obj. auto.
Qed.

Lemma update_rows (fk : bool) (now : Z) (m : mapped_class) (pk : value)
    (set_clause : list (string * value)) (d : database) (t : string)
    (row : instance) :
  find_row d m pk = Some row ->
  rows_of (update fk now m pk set_clause d).2 t = rows_of d t
  \/ (t = tablename m
      /\ rows_of (update fk now m pk set_clause d).2 t
         = replace_row pk (updated_row now m set_clause row) (rows_of d t)).
Proof.
  intros Hrow. unfold update. rewrite Hrow.
  destruct (check_constraints _ _ _ _ _) as [[]|e]; simpl; [|left; reflexivity].
  rewrite rows_of_insert.
  destruct (String.eqb_spec t (tablename m)) as [->|Hne]; [|left; reflexivity].
  right. auto.
Qed.

(** What a [modify] leaves in a table: the rows it had, or the same with
    the row that was found replaced by its update. *)
Lemma modify_rows (fk : bool) (now : Z) (m : mapped_class) (pk : value)
    (key : string) (v : value) (d : database) (t : string) :
  rows_of (modify fk now m pk key v d).2 t = rows_of d t
  \/ (t = tablename m
      /\ exists row : instance,
           find_row d m pk = Some row
           /\ is_ok (setattr m key v row).1 = true
           /\ rows_of (modify fk now m pk key v d).2 t
              = replace_row pk
                  (updated_row now m [(key, getattr (setattr m key v row).2 key)] row)
                  (rows_of d t)).
Proof.
  unfold modify.
  destruct (find_row d m pk) as [row|] eqn:Hrow; [|left; reflexivity].
  destruct (setattr m key v row) as [[[]|e] row'] eqn:Hset; [|left; reflexivity].
  destruct (update_rows fk now m pk [(key, getattr row' key)] d t row Hrow)
    as [Hsame|[-> Hnew]]; [left; exact Hsame|].
  right. split; [reflexivity|]. exists row.
  rewrite Hset. simpl. auto.
Qed.

Lemma registry_tablename_inj (m m' : mapped_class) :
  In m registry -> In m' registry -> tablename m = tablename m' -> m = m'.
Proof.
  simpl. intros Hm Hm' E.
  repeat (destruct Hm as [<-|Hm]); try contradiction;
    repeat (destruct Hm' as [<-|Hm']); try contradiction;
    first [reflexivity | discriminate E].
Qed.

Lemma apply_onupdate_other (now : Z) (key : string) (cols : list column)
    (set_clause : list (string * value)) (row : instance) :
  no_onupdate key cols = true ->
  getattr (apply_onupdate now cols set_clause row) key = getattr row key.
Proof.
  induction cols as [|c cols IH]; simpl; [reflexivity|].
  rewrite andb_true_iff, negb_true_iff. intros [Hc Hrest].
  destruct (onupdate_now c && negb _) eqn:Hd; [|auto].
  rewrite getattr_insert.
  destruct (String.eqb key (col_name c)); [|auto].
  apply andb_true_iff in Hd as [Hd _]. rewrite Hd in Hc. discriminate.
Qed.

Lemma apply_set_single (key key' : string) (x : value) (row : instance) :
  getattr (apply_set [(key', x)] row) key
    = if String.eqb key key' then x else getattr row key.
Proof.
  unfold apply_set. simpl. apply getattr_insert.
Qed.

(** In every reachable database the rows of a guarded text column hold
    non-empty strings. *)
Lemma guarded_rows_nonempty (m : mapped_class) (key : string) (d : database) :
  guarded m key ->
  reachable d ->
  List.Forall (fun row => nonempty_str (getattr row key) = true)
              (rows_of d (tablename m)).
Proof.
  intros Hguard Hreach.
  assert (Hm : In m registry) by (destruct Hguard; assumption).
  induction Hreach as [|fk now m' kwargs d Hm' Hreach IH
                       |fk now m' pk key' v d Hm' Hreach IH].
  - unfold rows_of. rewrite lookup_empty. constructor.
  - destruct (create_rows fk now m' kwargs d (tablename m))
      as [Hsame|(Ht & obj & Hobj & Hok & Hrows)]; [rewrite Hsame; exact IH|].
    apply (registry_tablename_inj m m' Hm Hm') in Ht. subst m'.
    rewrite Hrows. apply List.Forall_app. split; [exact IH|].
    constructor; [|constructor].
    apply (insert_guarded m key Hguard); [|exact Hok].
    apply (construct_from_keeps_invariant m key Hguard kwargs ∅); [|exact Hobj].
    left. apply getattr_empty.
  - destruct (modify_rows fk now m' pk key' v d (tablename m))
      as [Hsame|(Ht & row & Hrow & Hok & Hrows)]; [rewrite Hsame; exact IH|].
    apply (registry_tablename_inj m m' Hm Hm') in Ht. subst m'.
    rewrite Hrows. apply replace_row_forall; [|exact IH].
    unfold updated_row.
    rewrite apply_onupdate_other by (destruct Hguard as (_ & _ & _ & _ & _ & H); exact H).
    rewrite apply_set_single.
    destruct (String.eqb_spec key key') as [<-|Hne].
    + apply (setattr_guarded_ok m key Hguard). exact Hok.
    + apply find_row_in in Hrow.
      rewrite List.Forall_forall in IH. apply IH. exact Hrow.
Qed.



(** ** Timestamps *)

Lemma stamped_columns (m : mapped_class) (key : string) :
  In (m, key) stamped ->
  no_default key (columns m) = false /\ no_primary_key key (columns m) = true.
Proof.
  simpl. intros H.
  repeat (destruct H as [H|H]; [injection H as <- <-; split; reflexivity|]).
  contradiction.
Qed.

Lemma insert_stamps (fk : bool) (now : Z) (m : mapped_class) (key : string)
    (obj : instance) (d : database) :
  In (m, key) stamped ->
  getattr obj key = VNone ->
  is_ok (insert fk now m obj d).1 = true ->
  getattr (the_row (insert fk now m obj d).1) key = VDateTime now.
Proof.
  intros Hin Hunset Hok.
  destruct (stamped_columns m key Hin) as [Hdef Hpk].
  apply insert_ok in Hok as (Hrow & _ & _).
  rewrite Hrow, assign_primary_key_other by exact Hpk.
  apply apply_defaults_stamps; assumption.
Qed.

Lemma modify_ok (fk : bool) (now : Z) (m : mapped_class) (pk : value)
    (key : string) (v : value) (d : database) (row : instance) :
  find_row d m pk = Some row ->
  is_ok (modify fk now m pk key v d).1 = true ->
  rows_of (modify fk now m pk key v d).2 (tablename m)
    = replace_row pk (modified_row now m key v row) (rows_of d (tablename m)).
Proof.
  intros Hrow. unfold modify, modified_row. rewrite Hrow.
  destruct (setattr m key v row) as [[[]|e] row']; simpl; [|discriminate].
  unfold update. rewrite Hrow.
  destruct (check_constraints _ _ _ _ _) as [[]|e]; simpl; [|discriminate].
  intros _. rewrite rows_of_insert, String.eqb_refl. reflexivity.
Qed.

Lemma named_in_single (key k : string) (x : value) :
  named_in [(k, x)] key = String.eqb key k.
Proof.
  unfold named_in. cbn [existsb fst]. apply orb_false_r.
Qed.

Lemma apply_onupdate_stamps (now : Z) (key : string) (cols : list column)
    (set_clause : list (string * value)) (row : instance) :
  no_onupdate key cols = false ->
  named_in set_clause key = false ->
  getattr (apply_onupdate now cols set_clause row) key = VDateTime now.
Proof.
  intros Hcols Hfree.
  induction cols as [|c cols IH]; cbn [apply_onupdate foldr no_onupdate forallb] in *;
    [discriminate|].
  destruct (onupdate_now c && String.eqb key (col_name c)) eqn:Hc; cbn [negb andb] in Hcols.
  - apply andb_true_iff in Hc as [Hup Hname].
    apply String.eqb_eq in Hname. rewrite <- Hname, Hup, Hfree. cbn [negb andb].
    rewrite getattr_insert, String.eqb_refl. reflexivity.
  - destruct (onupdate_now c && negb _); [|auto].
    rewrite getattr_insert.
    destruct (String.eqb key (col_name c)); auto.
Qed.

Lemma review_update_stamps (now : Z) (key : string) (v : value) (row : instance) :
  key <> "created_at" ->
  key <> "updated_at" ->
  getattr (modified_row now Review.cls key v row) "updated_at" = VDateTime now
  /\ getattr (modified_row now Review.cls key v row) "created_at"
     = getattr row "created_at".
Proof.
  intros Hc Hu. unfold modified_row, updated_row. split.
  - apply apply_onupdate_stamps; [reflexivity|].
    rewrite named_in_single.
    destruct (String.eqb_spec "updated_at" key); congruence.
  - rewrite apply_onupdate_other by reflexivity.
    rewrite apply_set_single.
    destruct (String.eqb_spec "created_at" key); congruence.
Qed.




(** ** Serialization *)

Lemma path_in_spec (p : list string) (schema : list (list string)) :
  path_in p schema = true <-> In p schema.
Proof.
  unfold path_in. rewrite existsb_exists. split.
  - intros (q & Hq & E). apply bool_decide_eq_true in E. subst q. exact Hq.
  - intros H. exists p. split; [exact H|].
    apply bool_decide_eq_true. reflexivity.
Qed.

Lemma path_in_app (p : list string) (s1 s2 : list (list string)) :
  path_in p (s1 ++ s2) = path_in p s1 || path_in p s2.
Proof.
  apply existsb_app.
Qed.

Lemma fork_keeps (a b : string) (schema : list (list string)) :
  path_in [a; b] schema = true -> path_in [b] (fork a schema) = true.
Proof.
  rewrite !path_in_spec. intros H. unfold fork.
  apply list_elem_of_In, list_elem_of_omap.
  exists [a; b]. split; [apply list_elem_of_In; exact H|].
  cbn [tail]. rewrite String.eqb_refl. reflexivity.
Qed.

Lemma under_no_field (b : string) (fields : list (string * json)) :
  (forall kv, In kv fields -> kv.1 <> b) -> under b (JObj fields) = [].
Proof.
  intros H. unfold under.
  induction fields as [|kv fields IH]; [reflexivity|].
  cbn [flat_map].
  destruct (String.eqb_spec b kv.1) as [E|_].
  - exfalso. apply (H kv); [left; reflexivity | congruence].
  - rewrite IH; [reflexivity|].
    intros kv' Hin. apply H. right. exact Hin.
Qed.

Lemma column_fields_in (m : mapped_class) (obj : instance)
    (schema : list (list string)) (kv : string * json) :
  In kv (column_fields m obj schema) ->
  path_in [kv.1] schema = false /\ exists v, kv.2 = JVal v.
Proof.
  unfold column_fields. intros H.
  apply list_elem_of_In, list_elem_of_omap in H as (c & _ & Hc).
  destruct (path_in [col_name c] schema) eqn:E; [discriminate|].
  injection Hc as <-. simpl. eauto.
Qed.

Section Recur.
Variable recur : mapped_class -> instance -> list (list string) -> json.
Hypothesis recur_object : forall t row schema items, recur t row schema <> JArr items.

Lemma relationship_fields_key (d : database) (m : mapped_class) (obj : instance)
    (schema : list (list string)) (kv : string * json) :
  In kv (relationship_fields recur d m obj schema) ->
  path_in [kv.1] schema = false.
Proof.
  unfold relationship_fields. intros H.
  apply list_elem_of_In, list_elem_of_omap in H as (r & _ & Hr).
  destruct (path_in [rel_name r] schema) eqn:E; [discriminate|].
  destruct (related d m obj r) as [[[t many] rows]|]; [|discriminate].
  injection Hr as <-. exact E.
Qed.

Lemma relationship_fields_items (d : database) (m : mapped_class) (obj : instance)
    (schema : list (list string)) (kv : string * json) (j : json) :
  In kv (relationship_fields recur d m obj schema) ->
  In j (match kv.2 with JArr items => items | j' => [j'] end) ->
  j = JVal VNone \/ exists t row, j = recur t row (fork kv.1 schema).
Proof.
  unfold relationship_fields. intros H.
  apply list_elem_of_In, list_elem_of_omap in H as (r & _ & Hr).
  destruct (path_in [rel_name r] schema); [discriminate|].
  destruct (related d m obj r) as [[[t many] rows]|]; [|discriminate].
  injection Hr as <-. cbn [fst snd].
  destruct many.
  - intros Hj. apply in_map_iff in Hj as (row & <- & _). right. eauto.
  - destruct rows as [|row rows]; cbn [map].
    + intros [<-|[]]. left. reflexivity.
    + destruct (recur t row (fork (rel_name r) schema)) as [v|fields|items|] eqn:E;
        try (intros [<-|[]]; right; exists t, row; congruence).
      exfalso. exact (recur_object _ _ _ _ E).
Qed.
End Recur.

Lemma serialize_model_object (fuel : nat) (d : database) (m : mapped_class)
    (obj : instance) (schema : list (list string)) (items : list json) :
  serialize_model fuel d m obj schema <> JArr items.
Proof.
  destruct fuel; discriminate.
Qed.

(** A key that the rules in force exclude is not written. *)
Lemma serialize_cut (fuel : nat) (d : database) (m : mapped_class)
    (obj : instance) (schema : list (list string)) (b : string) :
  path_in [b] schema = true ->
  under b (serialize_model fuel d m obj schema) = [].
Proof.
  intros H. destruct fuel; [reflexivity|].
  cbn [serialize_model]. apply under_no_field.
  intros kv Hin E.
  assert (Hk : path_in [kv.1]
                 (schema ++ excluded_paths (serialize_rules m)) = false).
  { apply in_app_or in Hin as [Hin|Hin].
    - apply column_fields_in in Hin. tauto.
    - apply relationship_fields_key in Hin. exact Hin. }
  rewrite E, path_in_app, H in Hk. discriminate.
Qed.

(** A rule [-a.b] of a class keeps [b] out of whatever its instances
    show under [a], at every depth and in every database. *)
Lemma rule_cuts (fuel : nat) (d : database) (m : mapped_class) (obj : instance)
    (schema : list (list string)) (a b : string) :
  path_in [a; b] (excluded_paths (serialize_rules m)) = true ->
  includes [a; b] (serialize_model fuel d m obj schema) = false.
Proof.
  intros H. destruct fuel; [reflexivity|].
  cbn [serialize_model includes].
  apply not_true_is_false. intros Hex.
  apply existsb_exists in Hex as (j & Hj & Hinc).
  assert (Hcut : under b j = []); [|rewrite Hcut in Hinc; discriminate].
  unfold under in Hj. apply in_flat_map in Hj as (kv & Hkv & Hj).
  destruct (String.eqb_spec a kv.1) as [->|_]; [|destruct Hj].
  apply in_app_or in Hkv as [Hkv|Hkv].
  - apply column_fields_in in Hkv as (_ & v & Hv).
    rewrite Hv in Hj. destruct Hj as [<-|[]]. reflexivity.
  - apply (relationship_fields_items _ (serialize_model_object fuel d)) with (j := j)
      in Hkv; [|exact Hj].
    destruct Hkv as [->|(t & row & ->)]; [reflexivity|].
    apply serialize_cut, fork_keeps.
    rewrite path_in_app, H. apply orb_true_r.
Qed.


(** * Further properties of the models *)

(** ** Values behind a validator *)

Section Checked.
Variables (m : mapped_class) (key : string) (P : value -> bool).
Hypothesis Hchecked : checked m key P.

Lemma setattr_checked_ok (v : value) (obj : instance) :
  is_ok (setattr m key v obj).1 = true ->
  P (getattr (setattr m key v obj).2 key) = true.
Proof.
  intros Hok. destruct Hchecked as (_ & Hset & _).
  destruct (Hset v obj Hok) as [-> HP].
  rewrite getattr_insert, String.eqb_refl. exact HP.
Qed.

Lemma setattr_checked_raise (v : value) (obj : instance) :
  is_ok (setattr m key v obj).1 = false -> (setattr m key v obj).2 = obj.
Proof.
  unfold setattr, validated_set, plain_set.
  destruct (assoc key (validators m)) as [f|]; [destruct (f key v)|];
    simpl; congruence.
Qed.

Lemma setattr_checked_keeps (key' : string) (v : value) (obj : instance) :
  getattr obj key = VNone \/ P (getattr obj key) = true ->
  getattr (setattr m key' v obj).2 key = VNone
  \/ P (getattr (setattr m key' v obj).2 key) = true.
Proof.
  intros Hobj.
  destruct (String.eqb_spec key key') as [<-|Hne].
  - destruct (is_ok (setattr m key v obj).1) eqn:Hok.
    + right. apply setattr_checked_ok. exact Hok.
    + rewrite setattr_checked_raise by exact Hok. exact Hobj.
  - rewrite setattr_other by exact Hne. exact Hobj.
Qed.

Lemma construct_from_checked (kwargs : list (string * value)) (obj obj' : instance) :
  getattr obj key = VNone \/ P (getattr obj key) = true ->
  construct_from m kwargs obj = Ok obj' ->
  getattr obj' key = VNone \/ P (getattr obj' key) = true.
Proof.
  revert obj. induction kwargs as [|[k v] kwargs IH]; simpl; intros obj Hobj.
  - intros H. injection H as <-. exact Hobj.
  - destruct (is_column m k); [|discriminate].
    pose proof (setattr_checked_keeps k v obj Hobj) as Hnext.
    destruct (setattr m k v obj) as [[[]|e] obj1]; simpl in *; [|discriminate].
    apply IH. exact Hnext.
Qed.

Lemma insert_checked (fk : bool) (now : Z) (obj : instance) (d : database) :
  getattr obj key = VNone \/ P (getattr obj key) = true ->
  is_ok (insert fk now m obj d).1 = true ->
  P (getattr (the_row (insert fk now m obj d).1) key) = true.
Proof.
  intros Hobj Hins.
  destruct Hchecked as (_ & _ & Hreq & Hdef & Hpk & _).
  apply insert_ok in Hins as (Hrow & _ & Hnn).
  pose proof (check_not_null_required key _ _ Hreq Hnn) as Hset.
  rewrite Hrow in *.
  rewrite assign_primary_key_other, apply_defaults_other in * by assumption.
  destruct Hobj; congruence.
Qed.

(** In every reachable database the rows satisfy [P] in a checked
    column. *)
Lemma checked_rows (d : database) :
  reachable d ->
  List.Forall (fun row => P (getattr row key) = true) (rows_of d (tablename m)).
Proof.
  intros Hreach.
  assert (Hm : In m registry) by (destruct Hchecked; assumption).
  induction Hreach as [|fk now m' kwargs d Hm' Hreach IH
                       |fk now m' pk key' v d Hm' Hreach IH].
  - unfold rows_of. rewrite lookup_empty. constructor.
  - destruct (create_rows fk now m' kwargs d (tablename m))
      as [Hsame|(Ht & obj & Hobj & Hok & Hrows)]; [rewrite Hsame; exact IH|].
    apply (registry_tablename_inj m m' Hm Hm') in Ht. subst m'.
    rewrite Hrows. apply List.Forall_app. split; [exact IH|].
    constructor; [|constructor].
    apply insert_checked; [|exact Hok].
    apply (construct_from_checked kwargs ∅); [|exact Hobj].
    left. apply getattr_empty.
  - destruct (modify_rows fk now m' pk key' v d (tablename m))
      as [Hsame|(Ht & row & Hrow & Hok & Hrows)]; [rewrite Hsame; exact IH|].
    apply (registry_tablename_inj m m' Hm Hm') in Ht. subst m'.
    rewrite Hrows. apply replace_row_forall; [|exact IH].
    unfold updated_row.
    rewrite apply_onupdate_other
      by (destruct Hchecked as (_ & _ & _ & _ & _ & H); exact H).
    rewrite apply_set_single.
    destruct (String.eqb_spec key key') as [<-|Hne].
    + apply setattr_checked_ok. exact Hok.
    + apply find_row_in in Hrow.
      rewrite List.Forall_forall in IH. apply IH. exact Hrow.
Qed.

Lemma checked_column_holds (d : database) :
  reachable d -> column_holds m key P d = true.
Proof.
  intros Hreach. unfold column_holds.
  apply forallb_forall. intros row Hrow.
  pose proof (checked_rows d Hreach) as Hall.
  rewrite List.Forall_forall in Hall. apply Hall. exact Hrow.
Qed.
End Checked.

Ltac reach_library :=
  cbv beta zeta delta
    [library_reviewed library_two_readings library_reading library];
  repeat (apply reachable_create; [simpl; tauto|]);
  apply reachable_empty.

Lemma email_checked : checked User.cls "email" contains_at.
Proof.
  split; [simpl; tauto|].
  split; [|repeat split; reflexivity].
  intros v obj.
  rewrite (setattr_validated _ _ User.validate_email) by reflexivity.
  rewrite validate_email_cases.
  destruct v as [| | | |s|]; simpl; try discriminate.
  destruct (has_char "@" s) eqn:Hat; simpl; [auto|discriminate].
Qed.

Lemma validate_rating_ok (v : value) :
  is_ok (Review.validate_rating "rating" v) = true ->
  Review.validate_rating "rating" v = Ok v /\ rating_in_range v = true.
Proof.
  unfold Review.validate_rating, chained_le.
  destruct v as [|b|n|f|s|t]; simpl; try discriminate.
  - destruct b; simpl; [auto|discriminate].
  - destruct (1 <=? n); simpl; [|discriminate].
    destruct (n <=? 5); simpl; [auto|discriminate].
  - destruct (int_le_float 1 f); simpl; [|discriminate].
    destruct (float_le_int f 5); simpl; [auto|discriminate].
Qed.

Lemma rating_checked : checked Review.cls "rating" rating_in_range.
Proof.
  split; [simpl; tauto|].
  split; [|repeat split; reflexivity].
  intros v obj.
  rewrite (setattr_validated _ _ Review.validate_rating) by reflexivity.
  pose proof (validate_rating_ok v) as Hv.
  destruct (Review.validate_rating "rating" v) as [v'|e]; simpl; [|discriminate].
  intros _. destruct (Hv eq_refl) as [E Hrange].
  injection E as ->. auto.
Qed.

(** X1: in every database the application can reach, the email of each
    stored user is a string that contains the at sign. *)
Theorem stored_emails_contain_at (d : database) :
  reachable d -> column_holds User.cls "email" contains_at d = true.
Proof.
  apply (checked_column_holds User.cls "email" contains_at email_checked).
Qed.

Lemma stored_emails_contain_at_witness :
  reachable library_reviewed
  /\ column_holds User.cls "email" contains_at library_reviewed = true.
Proof.
  assert (H : reachable library_reviewed) by reach_library.
  split; [exact H|].
  apply (stored_emails_contain_at library_reviewed H).
Defined.

(** X2: in every database the application can reach, the rating of each
    stored review is a number between 1 and 5, never [None] or a string;
    a stored integer rating [n] has [1 <= n <= 5]. *)
Theorem stored_ratings_in_range (d : database) (row : instance) (n : Z) :
  reachable d ->
  column_holds Review.cls "rating" rating_in_range d = true
  /\ (In row (rows_of d "reviews") -> getattr row "rating" = VInt n -> 1 <= n <= 5).
Proof.
  intros Hreach.
  pose proof (checked_column_holds Review.cls "rating" rating_in_range
                rating_checked d Hreach) as Hall.
  split; [exact Hall|].
  intros Hrow Hn. unfold column_holds in Hall.
  rewrite forallb_forall in Hall. specialize (Hall row Hrow).
  rewrite Hn in Hall. simpl in Hall. apply in_range_spec. exact Hall.
Qed.

Lemma stored_ratings_in_range_witness :
  reachable library_reviewed
  /\ column_holds Review.cls "rating" rating_in_range library_reviewed = true
  /\ (In the_review (rows_of library_reviewed "reviews") ->
      getattr the_review "rating" = VInt 5 -> 1 <= 5 <= 5).
Proof.
  assert (H : reachable library_reviewed) by reach_library.
  split; [exact H|].
  apply (stored_ratings_in_range library_reviewed the_review 5 H).
Defined.

(** ** What the store keeps *)

Lemma update_rows_checked (fk : bool) (now : Z) (m : mapped_class) (pk : value)
    (set_clause : list (string * value)) (d : database) (t : string)
    (row : instance) :
  find_row d m pk = Some row ->
  rows_of (update fk now m pk set_clause d).2 t = rows_of d t
  \/ (t = tablename m
      /\ check_constraints fk d m (other_rows pk (rows_of d (tablename m)))
           (updated_row now m set_clause row) = Ok ()
      /\ rows_of (update fk now m pk set_clause d).2 t
         = replace_row pk (updated_row now m set_clause row) (rows_of d t)).
Proof.
  intros Hrow. unfold update, other_rows. rewrite Hrow.
  destruct (check_constraints _ _ _ _ _) as [[]|e] eqn:Hcheck; simpl;
    [|left; reflexivity].
  rewrite rows_of_insert.
  destruct (String.eqb_spec t (tablename m)) as [->|Hne]; [|left; reflexivity].
  right. auto.
Qed.

(** A [modify] leaves a table as it was, or replaces one of its rows by
    a row that passed the constraints against the other rows. *)
Lemma modify_rows_checked (fk : bool) (now : Z) (m : mapped_class) (pk : value)
    (key : string) (v : value) (d : database) (t : string) :
  rows_of (modify fk now m pk key v d).2 t = rows_of d t
  \/ (t = tablename m
      /\ exists new : instance,
           check_constraints fk d m (other_rows pk (rows_of d (tablename m))) new
           = Ok ()
           /\ rows_of (modify fk now m pk key v d).2 t
              = replace_row pk new (rows_of d t)).
Proof.
  unfold modify.
  destruct (find_row d m pk) as [row|] eqn:Hrow; [|left; reflexivity].
  destruct (setattr m key v row) as [[[]|e] row']; [|left; reflexivity].
  destruct (update_rows_checked fk now m pk [(key, getattr row' key)] d t row Hrow)
    as [Hsame|(-> & Hcheck & Hnew)]; [left; exact Hsame|].
  right. split; [reflexivity|]. eauto.
Qed.

Lemma check_constraints_ok (fk : bool) (d : database) (m : mapped_class)
    (others : list instance) (obj : instance) :
  check_constraints fk d m others obj = Ok () ->
  check_not_null (columns m) obj = Ok ()
  /\ check_unique (columns m) others obj = Ok ().
Proof.
  unfold check_constraints. intros H.
  apply bind_ok in H as ([] & Hnn & H).
  apply bind_ok in H as ([] & Hun & _). auto.
Qed.

Lemma all_required_set_rows (d : database) (m : mapped_class) :
  reachable d -> In m registry ->
  List.Forall (fun row => is_ok (check_not_null (columns m) row) = true)
              (rows_of d (tablename m)).
Proof.
  intros Hreach Hm.
  induction Hreach as [|fk now m' kwargs d Hm' Hreach IH
                       |fk now m' pk key' v d Hm' Hreach IH].
  - unfold rows_of. rewrite lookup_empty. constructor.
  - destruct (create_rows fk now m' kwargs d (tablename m))
      as [Hsame|(Ht & obj & Hobj & Hok & Hrows)]; [rewrite Hsame; exact IH|].
    apply (registry_tablename_inj m m' Hm Hm') in Ht. subst m'.
    rewrite Hrows. apply List.Forall_app. split; [exact IH|].
    constructor; [|constructor].
    apply insert_ok in Hok as (_ & _ & Hnn). rewrite Hnn. reflexivity.
  - destruct (modify_rows_checked fk now m' pk key' v d (tablename m))
      as [Hsame|(Ht & new & Hcheck & Hrows)]; [rewrite Hsame; exact IH|].
    apply (registry_tablename_inj m m' Hm Hm') in Ht. subst m'.
    rewrite Hrows. apply replace_row_forall; [|exact IH].
    apply check_constraints_ok in Hcheck as [Hnn _]. rewrite Hnn. reflexivity.
Qed.

(** X3: in every database the application can reach, each stored row of
    each of the seven classes has a value in every column declared
    [nullable=False] (and in its primary key): a membership always names
    its user and its club, a review its user, book, club, content and
    rating. *)
Theorem required_columns_always_set (d : database) :
  reachable d -> all_required_set d = true.
Proof.
  intros Hreach. unfold all_required_set.
  apply forallb_forall. intros m Hm.
  apply forallb_forall. intros row Hrow.
  pose proof (all_required_set_rows d m Hreach Hm) as Hall.
  rewrite List.Forall_forall in Hall. apply Hall. exact Hrow.
Qed.

Lemma required_columns_always_set_witness :
  reachable library_reviewed /\ all_required_set library_reviewed = true.
Proof.
  assert (H : reachable library_reviewed) by reach_library.
  split; [exact H|].
  apply (required_columns_always_set library_reviewed H).
Defined.

(** ** Unique columns and primary keys *)

Lemma not_held_spec (key : string) (v : value) (rows : list instance) :
  existsb (holds_value key v) rows = false <-> ~ In v (column_values key rows).
Proof.
  unfold column_values. split.
  - intros H Hin. apply in_map_iff in Hin as (r & Hr & Hin).
    assert (E : existsb (holds_value key v) rows = true); [|congruence].
    apply existsb_exists. exists r. split; [exact Hin|].
    unfold holds_value. apply bool_decide_eq_true. exact Hr.
  - intros H. apply not_true_is_false. intros E.
    apply existsb_exists in E as (r & Hin & Hr).
    unfold holds_value in Hr. apply bool_decide_eq_true in Hr.
    apply H. apply in_map_iff. exists r. auto.
Qed.

Lemma check_unique_ok (cols : list column) (others : list instance)
    (obj : instance) (c : column) :
  check_unique cols others obj = Ok () ->
  In c cols ->
  unique c || primary_key c = true ->
  getattr obj (col_name c) <> VNone ->
  ~ In (getattr obj (col_name c)) (column_values (col_name c) others).
Proof.
  intros Hcheck Hin Hkey Hset.
  induction cols as [|c' cols IH]; [destruct Hin|].
  cbn [check_unique] in Hcheck.
  destruct ((unique c' || primary_key c')
            && negb (is_none (getattr obj (col_name c')))
            && existsb _ others) eqn:Hc'; [discriminate|].
  destruct Hin as [->|Hin]; [|auto].
  apply not_held_spec.
  rewrite Hkey in Hc'. simpl in Hc'.
  destruct (is_none (getattr obj (col_name c))) eqn:Hnone.
  - apply is_none_spec in Hnone. contradiction.
  - exact Hc'.
Qed.

Lemma check_not_null_ok (cols : list column) (obj : instance) (c : column) :
  check_not_null cols obj = Ok () ->
  In c cols ->
  nullable c = false ->
  getattr obj (col_name c) <> VNone.
Proof.
  intros Hcheck Hin Hnn.
  induction cols as [|c' cols IH]; [destruct Hin|].
  cbn [check_not_null] in Hcheck.
  destruct (negb (nullable c') && is_none (getattr obj (col_name c'))) eqn:Hc';
    [discriminate|].
  destruct Hin as [->|Hin]; [|auto].
  rewrite Hnn in Hc'. simpl in Hc'.
  intros E. rewrite E in Hc'. discriminate.
Qed.

Lemma replace_row_in (pk : value) (new x : instance) (rows : list instance) :
  In x (replace_row pk new rows) -> x = new \/ In x rows.
Proof.
  induction rows as [|r rows IH]; simpl; [tauto|].
  destruct (holds_value "id" pk r); simpl; intros [<-|Hin]; auto.
  destruct (IH Hin); auto.
Qed.

Lemma other_rows_all (pk : value) (rows : list instance) :
  ~ In pk (column_values "id" rows) -> other_rows pk rows = rows.
Proof.
  unfold other_rows, column_values.
  induction rows as [|r rows IH]; simpl; [reflexivity|].
  intros H.
  destruct (holds_value "id" pk r) eqn:Hr.
  - unfold holds_value in Hr. apply bool_decide_eq_true in Hr. tauto.
  - simpl. rewrite IH; [reflexivity | tauto].
Qed.

(** Replacing the row numbered [pk] by a row whose value is new among
    the other rows keeps the values of a column distinct. *)
Lemma replace_row_distinct (key : string) (pk : value) (new : instance)
    (rows : list instance) :
  NoDup (column_values "id" rows) ->
  NoDup (column_values key rows) ->
  ~ In (getattr new key) (column_values key (other_rows pk rows)) ->
  NoDup (column_values key (replace_row pk new rows)).
Proof.
  induction rows as [|r rows IH]; [intros _ H _; exact H|].
  intros Hid Hkey Hnew.
  apply NoDup_cons in Hid as [Hid1 Hid]. apply NoDup_cons in Hkey as [Hkey1 Hkey].
  change (other_rows pk (r :: rows))
    with (if negb (holds_value "id" pk r) then r :: other_rows pk rows
          else other_rows pk rows) in Hnew.
  cbn [replace_row].
  destruct (holds_value "id" pk r) eqn:Hr; cbn [negb] in Hnew.
  - unfold holds_value in Hr. apply bool_decide_eq_true in Hr.
    rewrite other_rows_all in Hnew
      by (rewrite <- Hr; rewrite list_elem_of_In in Hid1; exact Hid1).
    apply NoDup_cons. split; [rewrite list_elem_of_In; exact Hnew | exact Hkey].
  - apply NoDup_cons. split.
    + rewrite list_elem_of_In. intros Hin.
      apply in_map_iff in Hin as (x & Hx & Hin).
      apply replace_row_in in Hin as [->|Hin].
      * apply Hnew. left. congruence.
      * rewrite list_elem_of_In in Hkey1. apply Hkey1.
        apply in_map_iff. eauto.
    + apply IH; [exact Hid | exact Hkey|].
      intros Hin. apply Hnew. right. exact Hin.
Qed.

Lemma key_columns_required (m : mapped_class) (c : column) :
  In m registry -> In c (columns m) ->
  unique c || primary_key c = true -> nullable c = false.
Proof.
  intros Hm Hc Hkey.
  assert (H : forallb (fun m => forallb (fun c => implb (unique c || primary_key c)
                                                   (negb (nullable c)))
                                        (columns m)) registry = true)
    by reflexivity.
  rewrite forallb_forall in H. specialize (H m Hm).
  rewrite forallb_forall in H. specialize (H c Hc).
  rewrite Hkey in H. simpl in H. apply negb_true_iff. exact H.
Qed.

Lemma id_is_primary_key (m : mapped_class) :
  In m registry ->
  exists c, In c (columns m) /\ col_name c = "id" /\ primary_key c = true.
Proof.
  simpl. intros Hm.
  repeat (destruct Hm as [<-|Hm];
          [eexists; split; [left; reflexivity|split; reflexivity]|]).
  contradiction.
Qed.

Lemma column_values_app (key : string) (rows rows' : list instance) :
  column_values key (rows ++ rows')
    = (column_values key rows ++ column_values key rows')%list.
Proof.
  apply map_app.
Qed.

Lemma keys_distinct_reachable (d : database) : reachable d -> keys_distinct d.
Proof.
  intros Hreach.
  induction Hreach as [|fk now m' kwargs d Hm' Hreach IH
                       |fk now m' pk key' v d Hm' Hreach IH];
    intros m c Hm Hc Hkey.
  - unfold rows_of. rewrite lookup_empty. constructor.
  - destruct (create_rows fk now m' kwargs d (tablename m))
      as [Hsame|(Ht & obj & Hobj & Hok & Hrows)];
      [rewrite Hsame; apply IH; assumption|].
    apply (registry_tablename_inj m m' Hm Hm') in Ht. subst m'.
    rewrite Hrows, column_values_app.
    apply insert_ok in Hok as (_ & Hcheck & Hnn).
    apply check_constraints_ok in Hcheck as [_ Hun].
    apply NoDup_app. split; [apply IH; assumption|].
    split; [|apply NoDup_singleton].
    intros x Hx Hx'. apply list_elem_of_In in Hx.
    apply list_elem_of_In in Hx'. destruct Hx' as [<-|[]].
    revert Hx. apply (check_unique_ok _ _ _ c Hun Hc Hkey).
    apply (check_not_null_ok _ _ c Hnn Hc).
    apply (key_columns_required m c Hm Hc Hkey).
  - destruct (modify_rows_checked fk now m' pk key' v d (tablename m))
      as [Hsame|(Ht & new & Hcheck & Hrows)];
      [rewrite Hsame; apply IH; assumption|].
    apply (registry_tablename_inj m m' Hm Hm') in Ht. subst m'.
    rewrite Hrows.
    apply check_constraints_ok in Hcheck as [Hnn Hun].
    destruct (id_is_primary_key m Hm) as (cid & Hcid & Hname & Hpk).
    apply replace_row_distinct.
    + rewrite <- Hname. apply IH; [assumption..|].
      rewrite Hpk. apply orb_true_r.
    + apply IH; assumption.
    + apply (check_unique_ok _ _ _ c Hun Hc Hkey).
      apply (check_not_null_ok _ _ c Hnn Hc).
      apply (key_columns_required m c Hm Hc Hkey).
Qed.



Lemma assign_primary_key_given (key : string) (cols : list column)
    (rows : list instance) (obj : instance) :
  getattr obj key <> VNone ->
  getattr (assign_primary_key cols rows obj) key = getattr obj key.
Proof.
  intros Hset.
  induction cols as [|c cols IH]; simpl; [reflexivity|].
  destruct (primary_key c && is_none _) eqn:Hc; [|auto].
  rewrite getattr_insert.
  destruct (String.eqb_spec key (col_name c)) as [E|_]; [|auto].
  apply andb_true_iff in Hc as [_ Hnone].
  apply is_none_spec in Hnone. rewrite <- E in Hnone. congruence.
Qed.

Lemma check_unique_held (cols : list column) (others : list instance)
    (obj : instance) (c : column) :
  In c cols ->
  unique c || primary_key c = true ->
  getattr obj (col_name c) <> VNone ->
  existsb (holds_value (col_name c) (getattr obj (col_name c))) others = true ->
  is_ok (check_unique cols others obj) = false.
Proof.
  intros Hin Hkey Hset Hheld.
  induction cols as [|c' cols IH]; [destruct Hin|].
  cbn [check_unique].
  destruct ((unique c' || primary_key c')
            && negb (is_none (getattr obj (col_name c')))
            && existsb _ others) eqn:Hc'; [reflexivity|].
  destruct Hin as [->|Hin]; [|auto].
  rewrite Hkey, Hheld in Hc'.
  destruct (is_none (getattr obj (col_name c))) eqn:Hnone; [|discriminate].
  apply is_none_spec in Hnone. contradiction.
Qed.



(** ** Changing a password *)

Lemma password_hash_setter_not_str (bcrypt : Bcrypt) (salt : string) (v : value)
    (self : instance) :
  is_str_value v = false ->
  User.password_hash_setter bcrypt salt v self = (Raise TypeError, self).
Proof.
  destruct v; simpl; intros H; try discriminate; reflexivity.
Qed.



(** ** What a serialized instance shows *)

Lemma fully_ruled_declares (m : mapped_class) (r : relationship) :
  In m fully_ruled -> In r (relationships m) -> declares_back_edge m r = true.
Proof.
  intros Hm Hr.
  assert (H : forallb (fun m => forallb (declares_back_edge m) (relationships m))
                      fully_ruled = true) by (vm_compute; reflexivity).
  rewrite forallb_forall in H. specialize (H m Hm).
  rewrite forallb_forall in H. exact (H r Hr).
Qed.

(** X7: for User, Book, Genre, Membership, CurrentReading and Review the
    rules name the back edge of every relationship, so at every depth and
    in every database the serialized instance never shows, under a
    relationship, the attribute that leads back ([book_clubs_created]
    without [creator], [books] without [genre], and so on). *)
Theorem declared_back_edges_excluded (m : mapped_class) (r : relationship)
    (fuel : nat) (d : database) (obj : instance) :
  In m fully_ruled ->
  In r (relationships m) ->
  includes [rel_name r; back_populates r] (to_dict fuel d m obj) = false.
Proof.
  intros Hm Hr. apply rule_cuts.
  exact (fully_ruled_declares m r Hm Hr).
Qed.

Lemma declared_back_edges_excluded_witness :
  includes ["books"; "genre"]
    (to_dict 8 library_reviewed Genre.cls
       (default ∅ (find_row library_reviewed Genre.cls (VInt 1)))) = false.
Proof.
  apply (declared_back_edges_excluded Genre.cls (Relationship "books" "Book" "genre" None)).
  - simpl; tauto.
  - simpl; tauto.
Defined.

Lemma under_field (k : string) (val j : json) (fields : list (string * json)) :
  In (k, val) fields ->
  In j (match val with JArr items => items | j' => [j'] end) ->
  In j (under k (JObj fields)).
Proof.
  intros Hfield Hj. unfold under. apply in_flat_map.
  exists (k, val). split; [exact Hfield|].
  cbn [fst snd]. rewrite String.eqb_refl. destruct val; exact Hj.
Qed.

Lemma columns_not_excluded (m : mapped_class) (c : column) :
  In m registry -> In c (columns m) ->
  path_in [col_name c] (excluded_paths (serialize_rules m)) = false.
Proof.
  intros Hm Hc.
  assert (H : forallb (fun m => forallb (fun c => negb (path_in [col_name c]
                                          (excluded_paths (serialize_rules m))))
                                        (columns m)) registry = true)
    by (vm_compute; reflexivity).
  rewrite forallb_forall in H. specialize (H m Hm).
  rewrite forallb_forall in H. specialize (H c Hc).
  apply negb_true_iff. exact H.
Qed.



(** ** A walk that the rules do not cut *)

Lemma clear_of_cycle_rules (st : stage) :
  clear_of_cycle st (excluded_paths (serialize_rules (stage_class st))) = true.
Proof.
  destruct st; vm_compute; reflexivity.
Qed.

Lemma clear_of_cycle_key (st : stage) (schema : list (list string)) :
  clear_of_cycle st schema = true ->
  path_in [rel_name (stage_rel st)] schema = false.
Proof.
  intros Hclear. apply not_true_is_false. intros Hin.
  apply path_in_spec in Hin.
  unfold clear_of_cycle in Hclear. rewrite forallb_forall in Hclear.
  specialize (Hclear _ Hin).
  destruct st; vm_compute in Hclear; discriminate.
Qed.

Lemma clear_of_cycle_fork (st : stage) (schema : list (list string)) :
  clear_of_cycle st schema = true ->
  clear_of_cycle (next_stage st) (fork (rel_name (stage_rel st)) schema) = true.
Proof.
  intros Hclear. unfold clear_of_cycle in *.
  rewrite forallb_forall in Hclear. apply forallb_forall.
  intros p' Hp'. unfold fork in Hp'.
  apply list_elem_of_In, list_elem_of_omap in Hp' as (p & Hp & Hfork).
  apply list_elem_of_In in Hp. specialize (Hclear p Hp).
  destruct p as [|k [|x rest]]; try discriminate.
  destruct (String.eqb_spec (rel_name (stage_rel st)) k) as [<-|_]; [|discriminate].
  injection Hfork as <-.
  apply negb_true_iff. apply negb_true_iff in Hclear.
  apply not_true_is_false. intros Hon.
  unfold on_cycle in Hon, Hclear.
  apply bool_decide_eq_true in Hon.
  assert (E : bool_decide
                (rel_name (stage_rel st) :: x :: rest
                 = cycle_path st (length (rel_name (stage_rel st) :: x :: rest)))
              = true); [|congruence].
  apply bool_decide_eq_true.
  change (length (rel_name (stage_rel st) :: x :: rest))
    with (S (length (x :: rest))).
  cbn [cycle_path]. rewrite <- Hon. reflexivity.
Qed.

Lemma find_filter_head {A : Type} (p : A -> bool) (l : list A) (x : A) :
  find p l = Some x -> exists tl, List.filter p l = x :: tl.
Proof.
  induction l as [|a l IH]; simpl; [discriminate|].
  destruct (p a); [intros H; injection H as <-; eauto | exact IH].
Qed.

Lemma relationship_field_in
    (recur : mapped_class -> instance -> list (list string) -> json)
    (d : database) (m t : mapped_class) (obj : instance)
    (schema : list (list string)) (r : relationship) (many : bool)
    (rows : list instance) :
  In r (relationships m) ->
  path_in [rel_name r] schema = false ->
  related d m obj r = Some (t, many, rows) ->
  In (rel_name r,
      if many
      then JArr (map (fun row => recur t row (fork (rel_name r) schema)) rows)
      else match map (fun row => recur t row (fork (rel_name r) schema)) rows with
           | j :: _ => j
           | [] => JVal VNone
           end)
     (relationship_fields recur d m obj schema).
Proof.
  intros Hr Hpath Hrel. unfold relationship_fields.
  apply list_elem_of_In, list_elem_of_omap.
  exists r. split; [apply list_elem_of_In; exact Hr|].
  rewrite Hpath, Hrel. reflexivity.
Qed.

Section Cycle.
Variables (d : database) (u c mb : instance).
Hypothesis Hclub_row : In c (rows_of d "book_clubs").
Hypothesis Hcreated : getattr c "created_by" = getattr u "id".
Hypothesis Hmember_row : In mb (rows_of d "memberships").
Hypothesis Hmember : getattr mb "book_club_id" = getattr c "id".
Hypothesis Huser : find_row d User.cls (getattr mb "user_id") = Some u.

Lemma related_stage (st : stage) :
  exists (many : bool) (rows : list instance),
    related d (stage_class st) (stage_row u c mb st) (stage_rel st)
      = Some (stage_class (next_stage st), many, rows)
    /\ if many then In (stage_row u c mb (next_stage st)) rows
       else exists tl, rows = stage_row u c mb (next_stage st) :: tl.
Proof.
  destruct st; eexists; eexists; (split; [reflexivity|]); cbn [stage_row next_stage].
  - apply filter_In. split; [exact Hclub_row|].
    unfold holds_value. apply bool_decide_eq_true. exact Hcreated.
  - apply filter_In. split; [exact Hmember_row|].
    unfold holds_value. apply bool_decide_eq_true. exact Hmember.
  - apply find_filter_head. exact Huser.
Qed.
Lemma walk_is_cut (fuel : nat) :
  forall (st : stage) (schema : list (list string)),
    clear_of_cycle st schema = true ->
    cut_at (cycle_path st fuel)
      (serialize_model fuel d (stage_class st) (stage_row u c mb st) schema) = true.
Proof.
  induction fuel as [|fuel IH]; intros st schema Hclear; [reflexivity|].
  cbn [cycle_path cut_at serialize_model].
  set (schema' := (schema ++ excluded_paths (serialize_rules (stage_class st)))%list).
  assert (Hclear' : clear_of_cycle st schema' = true).
  { unfold schema', clear_of_cycle. rewrite forallb_app.
    fold (clear_of_cycle st schema).
    fold (clear_of_cycle st (excluded_paths (serialize_rules (stage_class st)))).
    rewrite Hclear, clear_of_cycle_rules. reflexivity. }
  destruct (related_stage st) as (many & rows & Hrel & Hnext).
  apply existsb_exists.
  exists (serialize_model fuel d (stage_class (next_stage st))
            (stage_row u c mb (next_stage st))
            (fork (rel_name (stage_rel st)) schema')).
  split; [|apply IH, clear_of_cycle_fork, Hclear'].
  eapply under_field.
  - apply in_or_app. right.
    apply (relationship_field_in (serialize_model fuel d) d (stage_class st)
             (stage_class (next_stage st)) (stage_row u c mb st) schema'
             (stage_rel st) many rows);
      [destruct st; simpl; tauto | apply clear_of_cycle_key, Hclear' | exact Hrel].
  - destruct many.
    + apply in_map_iff. eauto.
    + destruct Hnext as [tl ->]. cbn [map].
      destruct (serialize_model fuel d (stage_class (next_stage st))
                  (stage_row u c mb (next_stage st))
                  (fork (rel_name (stage_rel st)) schema')) eqn:E;
        try (left; reflexivity).
      exfalso. exact (serialize_model_object _ _ _ _ _ _ E).
Qed.
End Cycle.

Lemma row_of_found (d : database) (m : mapped_class) (pk : value) :
  from_option (fun _ => true) false (find_row d m pk) = true ->
  find_row d m pk = Some (row_of d m pk).
Proof.
  unfold row_of. destruct (find_row d m pk); [reflexivity | discriminate].
Qed.

(** X9: the rules do not cut every cycle.  When a user created a club
    and is a member of it, serializing the user walks from the user to
    the club, to the membership, to the user again, and so on: whatever
    the depth bound, the output is cut by the bound at the end of that
    walk, so the walk never ends by itself. *)
Theorem creator_member_walk_never_ends (d : database) (u c mb : instance)
    (fuel : nat) :
  In c (rows_of d "book_clubs") ->
  getattr c "created_by" = getattr u "id" ->
  In mb (rows_of d "memberships") ->
  getattr mb "book_club_id" = getattr c "id" ->
  find_row d User.cls (getattr mb "user_id") = Some u ->
  cut_at (cycle_path AtUser fuel) (to_dict fuel d User.cls u) = true.
Proof.
  intros Hclub_row Hcreated Hmember_row Hmember Huser.
  apply (walk_is_cut d u c mb Hclub_row Hcreated Hmember_row Hmember Huser
           fuel AtUser []).
  reflexivity.
Qed.

Lemma creator_member_walk_never_ends_witness :
  cut_at (cycle_path AtUser 7)
    (to_dict 7 library_joined User.cls (row_of library_joined User.cls (VInt 1)))
  = true.
Proof.
  assert (Hu : find_row library_joined User.cls (VInt 1)
               = Some (row_of library_joined User.cls (VInt 1)))
    by (apply row_of_found; vm_compute; reflexivity).
  assert (Hc : find_row library_joined BookClub.cls (VInt 1)
               = Some (row_of library_joined BookClub.cls (VInt 1)))
    by (apply row_of_found; vm_compute; reflexivity).
  assert (Hm : find_row library_joined Membership.cls (VInt 1)
               = Some (row_of library_joined Membership.cls (VInt 1)))
    by (apply row_of_found; vm_compute; reflexivity).
  apply (creator_member_walk_never_ends library_joined
           (row_of library_joined User.cls (VInt 1))
           (row_of library_joined BookClub.cls (VInt 1))
           (row_of library_joined Membership.cls (VInt 1)) 7).
  - exact (find_row_in _ _ _ _ Hc).
  - vm_compute; reflexivity.
  - exact (find_row_in _ _ _ _ Hm).
  - vm_compute; reflexivity.
  - replace (getattr (row_of library_joined Membership.cls (VInt 1)) "user_id")
      with (VInt 1) by (vm_compute; reflexivity).
    exact Hu.
Defined.

(** ** Relationships *)

Ltac mutual_case :=
  eexists; eexists;
  split; [reflexivity|]; split; [simpl; tauto|];
  split; [reflexivity|]; split; [reflexivity|];
  let d := fresh "d" in let a := fresh "a" in let b := fresh "b" in
  let Ha := fresh "Ha" in let Hb := fresh "Hb" in let E := fresh "E" in
  intros d a b Ha Hb; unfold related_rows, related; simpl; simpl in Ha, Hb;
  rewrite !filter_In; unfold holds_value; rewrite !bool_decide_eq_true;
  split; intros [_ E]; split; auto.



(** ** Memberships *)

Lemma join_writes (fk : bool) (now user club : Z) (d : database) :
  existsb (holds_value "id" (VInt user)) (rows_of d "users") = true ->
  existsb (holds_value "id" (VInt club)) (rows_of d "book_clubs") = true ->
  join fk now user club d
    = (Ok (membership_row user club d),
       <["memberships" :=
           (rows_of d "memberships" ++ [membership_row user club d])%list]> d).
Proof.
  intros Huser Hclub.
  unfold join, create, membership_row.
  change (construct Membership.cls _) with
    (Ok (<["book_club_id" := VInt club]> (<["user_id" := VInt user]> (∅ : instance)))).
  unfold insert, assign_primary_key, apply_defaults. simpl.
  repeat (rewrite ?getattr_insert, ?getattr_empty; simpl).
  unfold check_constraints. simpl.
  repeat (rewrite ?getattr_insert, ?getattr_empty; simpl).
  rewrite next_id_fresh. simpl.
  rewrite Huser, Hclub. simpl.
  destruct fk; reflexivity.
Qed.

(** X11: nothing limits the memberships of a user in a club.  For an
    existing user and club a membership is always written, whatever the
    table holds; written twice, the table ends with two rows that name
    the same user and the same club under different identifiers. *)
Theorem membership_not_unique (fk : bool) (now now' user club : Z) (d : database) :
  existsb (holds_value "id" (VInt user)) (rows_of d "users") = true ->
  existsb (holds_value "id" (VInt club)) (rows_of d "book_clubs") = true ->
  join fk now user club d
    = (Ok (membership_row user club d),
       <["memberships" :=
           (rows_of d "memberships" ++ [membership_row user club d])%list]> d)
  /\ exists row row' : instance,
       rows_of (join fk now' user club (join fk now user club d).2).2 "memberships"
         = (rows_of d "memberships" ++ [row; row'])%list
       /\ getattr row "user_id" = VInt user
       /\ getattr row' "user_id" = VInt user
       /\ getattr row "book_club_id" = VInt club
       /\ getattr row' "book_club_id" = VInt club
       /\ getattr row "id" <> getattr row' "id".
Proof.
  intros Huser Hclub.
  pose proof (join_writes fk now user club d Huser Hclub) as E1.
  split; [exact E1|].
  rewrite E1. cbn [snd].
  set (d1 := <["memberships" :=
                 (rows_of d "memberships" ++ [membership_row user club d])%list]> d).
  assert (Huser1 : existsb (holds_value "id" (VInt user)) (rows_of d1 "users") = true).
  { unfold d1. rewrite rows_of_insert. exact Huser. }
  assert (Hclub1 : existsb (holds_value "id" (VInt club)) (rows_of d1 "book_clubs") = true).
  { unfold d1. rewrite rows_of_insert. exact Hclub. }
  rewrite (join_writes fk now' user club d1 Huser1 Hclub1). cbn [snd].
  exists (membership_row user club d), (membership_row user club d1).
  rewrite rows_of_insert, String.eqb_refl.
  split.
  { unfold d1. rewrite rows_of_insert, String.eqb_refl, <- app_assoc. reflexivity. }
  assert (Hid : forall d0, getattr (membership_row user club d0) "id"
                          = VInt (next_id "id" (rows_of d0 "memberships"))).
  { intros d0. unfold membership_row. rewrite getattr_insert. reflexivity. }
  assert (Hother : forall d0 key, key <> "id" ->
            getattr (membership_row user club d0) key
            = getattr (<["book_club_id" := VInt club]>
                         (<["user_id" := VInt user]> (∅ : instance))) key).
  { intros d0 key Hne. unfold membership_row. rewrite getattr_insert.
    destruct (String.eqb_spec key "id"); [contradiction | reflexivity]. }
  rewrite !Hother by discriminate.
  repeat (split; [reflexivity|]).
  rewrite !Hid. intros E. injection E as E.
  unfold d1 in E. rewrite rows_of_insert, String.eqb_refl in E.
  pose proof (next_id_bound "id"
                (rows_of d "memberships" ++ [membership_row user club d])
                (membership_row user club d)) as Hlt.
  rewrite Hid, <- E in Hlt. cbn [int_of] in Hlt.
  assert (Hin : In (membership_row user club d)
                   (rows_of d "memberships" ++ [membership_row user club d])).
  { apply in_or_app. right. left. reflexivity. }
  specialize (Hlt Hin). lia.
Qed.

Lemma membership_not_unique_witness :
  existsb (holds_value "id" (VInt 1)) (rows_of library_joined "users") = true
  /\ existsb (holds_value "id" (VInt 1)) (rows_of library_joined "book_clubs") = true
  /\ (join true 160 1 1 library_joined).1
     = Ok (membership_row 1 1 library_joined).
Proof.
  assert (Hu : existsb (holds_value "id" (VInt 1)) (rows_of library_joined "users")
               = true) by (vm_compute; reflexivity).
  assert (Hc : existsb (holds_value "id" (VInt 1))
                 (rows_of library_joined "book_clubs") = true)
    by (vm_compute; reflexivity).
  split; [exact Hu|]. split; [exact Hc|].
  destruct (membership_not_unique true 160 170 1 1 library_joined Hu Hc) as [E _].
  rewrite E. reflexivity.
Defined.

(** ** What an update leaves alone *)

Lemma only_updated_at_refreshes (m : mapped_class) (key : string) :
  In m registry -> key <> "updated_at" -> no_onupdate key (columns m) = true.
Proof.
  intros Hm Hkey. unfold no_onupdate. apply forallb_forall. intros c Hc.
  assert (H : forallb (fun m => forallb (fun c => implb (onupdate_now c)
                                          (String.eqb (col_name c) "updated_at"))
                                        (columns m)) registry = true)
    by reflexivity.
  rewrite forallb_forall in H. specialize (H m Hm).
  rewrite forallb_forall in H. specialize (H c Hc).
  destruct (onupdate_now c); [|reflexivity].
  simpl in H. apply String.eqb_eq in H. rewrite H.
  destruct (String.eqb_spec key "updated_at"); [contradiction | reflexivity].
Qed.



(** ** Reading a repr back *)

Lemma pretty_N_char_no_separator (x : N) : separator (pretty_N_char x) = false.
Proof.
  unfold pretty_N_char. repeat case_match; reflexivity.
Qed.

Lemma pretty_N_go_no_separator (x : N) :
  forall s, no_separator s = true -> no_separator (pretty_N_go x s) = true.
Proof.
  induction (N.lt_wf_0 x) as [x _ IH]. intros s Hs.
  assert (Hx : (x = 0 \/ 0 < x)%N) by lia.
  destruct Hx as [->|Hx]; [rewrite pretty_N_go_0; exact Hs|].
  rewrite pretty_N_go_step by exact Hx.
  apply IH; [apply N.div_lt; lia|].
  cbn [no_separator]. rewrite pretty_N_char_no_separator, Hs. reflexivity.
Qed.

Lemma pretty_positive_no_separator (p : positive) :
  no_separator (pretty p) = true.
Proof.
  unfold pretty, pretty_positive, pretty, pretty_N.
  destruct (decide (N.pos p = 0%N)); [reflexivity|].
  apply pretty_N_go_no_separator. reflexivity.
Qed.

Lemma pretty_Z_no_separator (z : Z) : no_separator (pretty z) = true.
Proof.
  destruct z as [|p|p].
  - reflexivity.
  - change (no_separator (pretty p) = true).
    apply pretty_positive_no_separator.
  - change (no_separator (String "-" (pretty p)) = true).
    cbn [no_separator]. rewrite pretty_positive_no_separator. reflexivity.
Qed.

Lemma split_at_separator (s1 s2 : string) (c1 c2 : ascii) (r1 r2 : string) :
  no_separator s1 = true -> no_separator s2 = true ->
  separator c1 = true -> separator c2 = true ->
  s1 ++ String c1 r1 = s2 ++ String c2 r2 ->
  s1 = s2 /\ r1 = r2.
Proof.
  revert s2. induction s1 as [|a s1 IH]; intros [|b s2]; cbn [String.append no_separator];
    intros H1 H2 Hc1 Hc2 E.
  - injection E as _ E. auto.
  - injection E as -> _. rewrite Hc1 in H2. discriminate.
  - injection E as -> _. rewrite Hc2 in H1. discriminate.
  - injection E as -> E.
    apply andb_true_iff in H1 as [_ H1]. apply andb_true_iff in H2 as [_ H2].
    destruct (IH s2 H1 H2 Hc1 Hc2 E) as [-> ->]. auto.
Qed.

Lemma append_head_inj (t a b : string) : t ++ a = t ++ b -> a = b.
Proof.
  induction t as [|c t IH]; cbn [String.append]; [auto|].
  intros E. injection E as E. auto.
Qed.

Lemma length_append (a b : string) :
  String.length (a ++ b) = (String.length a + String.length b)%nat.
Proof.
  induction a as [|c a IH]; simpl; [reflexivity|].
  f_equal. exact IH.
Qed.

Lemma append_tail_inj (a b t : string) : a ++ t = b ++ t -> a = b.
Proof.
  revert b. induction a as [|c a IH]; intros [|c' b]; cbn [String.append]; intros E.
  - reflexivity.
  - apply (f_equal String.length) in E.
    simpl in E. rewrite !length_append in E. simpl in E. lia.
  - apply (f_equal String.length) in E.
    simpl in E. rewrite !length_append in E. simpl in E. lia.
  - injection E as -> E. rewrite (IH b E). reflexivity.
Qed.

Ltac peel E := repeat (injection E as E).

(** Splits [E : pretty i ++ sep ++ r = pretty j ++ sep ++ r'] at the
    separator into [i = j] and an equation between what follows. *)
Ltac split_number E Hnum :=
  cbn [String.append] in E;
  apply split_at_separator in E as [Hnum E];
  [ apply (inj pretty) in Hnum; peel E
  | apply pretty_Z_no_separator | apply pretty_Z_no_separator
  | reflexivity | reflexivity ].

Lemma named_repr_inj (tag : string) (i j : Z) (n n' : string) :
  fstring [Lit tag; Field (VInt i); Lit ". "; Field (VStr n); Lit ">"]
  = fstring [Lit tag; Field (VInt j); Lit ". "; Field (VStr n'); Lit ">"] ->
  i = j /\ n = n'.
Proof.
  cbn [fstring str]. intros E. injection E as E.
  apply append_head_inj in E.
  split_number E Hi.
  split; [exact Hi|].
  apply append_tail_inj in E. exact E.
Qed.

(** X13: the repr of a User, BookClub, Book or Genre with an integer
    identifier and a string name is the class tag, the identifier in
    decimal, a full stop and the name between angle brackets, and it can
    be read back: two instances of a class with the same repr have the
    same identifier and the same name. *)
Theorem named_repr_unambiguous (repr : instance -> option string)
    (tag key : string) (a b : instance) (i j : Z) (n n' : string) :
  In (repr, tag, key) named_reprs ->
  getattr a "id" = VInt i -> getattr a key = VStr n ->
  getattr b "id" = VInt j -> getattr b key = VStr n' ->
  repr a = Some (tag ++ pretty i ++ ". " ++ n ++ ">")
  /\ (repr a = repr b -> i = j /\ n = n').
Proof.
  intros Hin Hai Han Hbi Hbn. simpl in Hin.
  repeat (destruct Hin as [Hin|Hin]; [injection Hin as <- <- <-|]);
    [..|contradiction];
    unfold User.__repr__, BookClub.__repr__, Book.__repr__, Genre.__repr__;
    rewrite Hai, Han, Hbi, Hbn;
    (split; [reflexivity | apply named_repr_inj]).
Qed.

Lemma named_repr_unambiguous_witness :
  User.__repr__ (row_of library User.cls (VInt 1)) = Some "<User 1. ann>".
Proof.
  apply (named_repr_unambiguous User.__repr__ "<User " "username"
           (row_of library User.cls (VInt 1)) (row_of library User.cls (VInt 1))
           1 1 "ann" "ann").
  - simpl; tauto.
  - vm_compute; reflexivity.
  - vm_compute; reflexivity.
  - vm_compute; reflexivity.
  - vm_compute; reflexivity.
Defined.

(** X14: the repr of a Membership, a CurrentReading or a Review whose
    identifiers (and rating) are integers can be read back: two instances
    of the class with the same repr agree on every number shown, the
    identifier, the user, book and club identifiers and the rating. *)
Theorem numeric_repr_unambiguous :
  (forall (a b : instance) (i j u u' c c' : Z),
      getattr a "id" = VInt i -> getattr a "user_id" = VInt u ->
      getattr a "book_club_id" = VInt c ->
      getattr b "id" = VInt j -> getattr b "user_id" = VInt u' ->
      getattr b "book_club_id" = VInt c' ->
      Membership.__repr__ a = Membership.__repr__ b ->
      i = j /\ u = u' /\ c = c')
  /\ (forall (a b : instance) (i j c c' k k' : Z),
        getattr a "id" = VInt i -> getattr a "book_club_id" = VInt c ->
        getattr a "book_id" = VInt k ->
        getattr b "id" = VInt j -> getattr b "book_club_id" = VInt c' ->
        getattr b "book_id" = VInt k' ->
        CurrentReading.__repr__ a = CurrentReading.__repr__ b ->
        i = j /\ c = c' /\ k = k')
  /\ (forall (a b : instance) (i j u u' k k' r r' : Z),
        getattr a "id" = VInt i -> getattr a "user_id" = VInt u ->
        getattr a "book_id" = VInt k -> getattr a "rating" = VInt r ->
        getattr b "id" = VInt j -> getattr b "user_id" = VInt u' ->
        getattr b "book_id" = VInt k' -> getattr b "rating" = VInt r' ->
        Review.__repr__ a = Review.__repr__ b ->
        i = j /\ u = u' /\ k = k' /\ r = r').
Proof.
  split; [|split].
  - intros a b i j u u' c c' Hai Hau Hac Hbi Hbu Hbc.
    unfold Membership.__repr__. rewrite Hai, Hau, Hac, Hbi, Hbu, Hbc.
    cbn [fstring str]. intros E. injection E as E.
    apply append_head_inj in E.
    split_number E Hi. split_number E Hu. split_number E Hc. auto.
  - intros a b i j c c' k k' Hai Hac Hak Hbi Hbc Hbk.
    unfold CurrentReading.__repr__. rewrite Hai, Hac, Hak, Hbi, Hbc, Hbk.
    cbn [fstring str]. intros E. injection E as E.
    apply append_head_inj in E.
    split_number E Hi. split_number E Hc. split_number E Hk. auto.
  - intros a b i j u u' k k' r r' Hai Hau Hak Har Hbi Hbu Hbk Hbr.
    unfold Review.__repr__. rewrite Hai, Hau, Hak, Har, Hbi, Hbu, Hbk, Hbr.
    cbn [fstring str]. intros E. injection E as E.
    apply append_head_inj in E.
    split_number E Hi. split_number E Hu. split_number E Hk. split_number E Hr.
    auto.
Qed.

(** ** Founding a club *)

(** X15: a club with a non-empty name and an existing creator is always
    written, whatever clubs the table holds (the name is not unique): it
    gets a fresh identifier, the current time as [created_at], and no
    description. *)
Theorem club_with_name_is_written (fk : bool) (now : Z) (name : string)
    (creator : Z) (d : database) :
  name <> "" ->
  existsb (holds_value "id" (VInt creator)) (rows_of d "users") = true ->
  found_club fk now name creator d
    = (Ok (club_row now name creator d),
       <["book_clubs" :=
           (rows_of d "book_clubs" ++ [club_row now name creator d])%list]> d)
  /\ getattr (club_row now name creator d) "name" = VStr name
  /\ getattr (club_row now name creator d) "created_at" = VDateTime now
  /\ getattr (club_row now name creator d) "description" = VNone
  /\ ~ In (getattr (club_row now name creator d) "id")
         (column_values "id" (rows_of d "book_clubs")).
Proof.
  intros Hname Hcreator.
  destruct name as [|ch name]; [contradiction|].
  split.
  { unfold found_club, create, club_row.
    change (construct BookClub.cls _) with
      (Ok (<["created_by" := VInt creator]>
             (<["name" := VStr (String ch name)]> (∅ : instance)))).
    unfold insert, assign_primary_key, apply_defaults. simpl.
    repeat (rewrite ?getattr_insert, ?getattr_empty; simpl).
    unfold check_constraints. simpl.
    repeat (rewrite ?getattr_insert, ?getattr_empty; simpl).
    rewrite next_id_fresh. simpl.
    rewrite Hcreator. simpl.
    destruct fk; reflexivity. }
  unfold club_row.
  repeat (rewrite ?getattr_insert, ?getattr_empty; simpl).
  repeat (split; [reflexivity|]).
  apply not_held_spec, next_id_fresh.
Qed.

Lemma club_with_name_is_written_witness :
  "Mystery Lovers" <> ""
  /\ existsb (holds_value "id" (VInt 1)) (rows_of library "users") = true
  /\ (found_club true 500 "Mystery Lovers" 1 library).1
     = Ok (club_row 500 "Mystery Lovers" 1 library).
Proof.
  assert (Hn : "Mystery Lovers" <> "") by discriminate.
  assert (Hu : existsb (holds_value "id" (VInt 1)) (rows_of library "users") = true)
    by (vm_compute; reflexivity).
  split; [exact Hn|]. split; [exact Hu|].
  destruct (club_with_name_is_written true 500 "Mystery Lovers" 1 library Hn Hu)
    as [E _].
  rewrite E. reflexivity.
Defined.
